(** * Provider portal: state model, derived views and CSV export

    Shallow embedding of [src/components/ui/provider_portal.tsx].

    - JavaScript strings are sequences of UTF-16 code units ([jsstring]).
    - JavaScript numbers are IEEE-754 binary64 values: the primitive [float].
    - React state ([useState]) is an explicit record [AppState]; every handler
      is a function from state to state.
    - Values the code draws from its environment ([Math.random], [Date]) are
      explicit arguments of the handlers that read them. *)

From Stdlib Require Import ZArith NArith Bool String Ascii List Lia Floats.
Import ListNotations.


(* ================================================================== *)
(** * Strings *)
(* ================================================================== *)

(** One UTF-16 code unit. *)
Definition code_unit := N.

(** A JavaScript string value. *)
Definition jsstring := list code_unit.

(** A literal written with characters of the Basic Latin block. *)
Definition js (s : string) : jsstring :=
  List.map N_of_ascii (list_ascii_of_string s).

(** [a === b] on strings. *)
Fixpoint str_eqb (a b : jsstring) : bool :=
  match a, b with
  | [], [] => true
  | x :: a', y :: b' => N.eqb x y && str_eqb a' b'
  | _, _ => false
  end.

(** [!s]: the empty string is the only falsy string. *)
Definition str_falsy (s : jsstring) : bool :=
  match s with [] => true | _ => false end.

(** ECMAScript [WhiteSpace] and [LineTerminator] code points (all of them lie
    in the Basic Multilingual Plane, so each is one code unit). *)
Definition is_white_space (c : code_unit) : bool :=
  ((9 <=? c) && (c <=? 13) ||
   (c =? 32) || (c =? 160) || (c =? 5760) ||
   (8192 <=? c) && (c <=? 8202) ||
   (c =? 8232) || (c =? 8233) || (c =? 8239) || (c =? 8287) ||
   (c =? 12288) || (c =? 65279))%N.

Fixpoint trimStart (s : jsstring) : jsstring :=
  match s with
  | c :: s' => if is_white_space c then trimStart s' else s
  | [] => []
  end.

Definition trimEnd (s : jsstring) : jsstring :=
  rev (trimStart (rev s)).

(** [String.prototype.trim]. *)
Definition trim (s : jsstring) : jsstring := trimEnd (trimStart s).

(** [hay.startsWith(needle)]. *)
Fixpoint startsWith (hay needle : jsstring) : bool :=
  match needle, hay with
  | [], _ => true
  | n :: needle', h :: hay' => N.eqb n h && startsWith hay' needle'
  | _ :: _, [] => false
  end.

(** [hay.includes(needle)]. *)
Fixpoint includes (hay needle : jsstring) : bool :=
  startsWith hay needle ||
  match hay with
  | [] => false
  | _ :: hay' => includes hay' needle
  end.

(** [xs.join(sep)]. *)
Fixpoint join (sep : jsstring) (xs : list jsstring) : jsstring :=
  match xs with
  | [] => []
  | [x] => x
  | x :: rest => x ++ sep ++ join sep rest
  end.

(** A lower-casing that agrees with [String.prototype.toLowerCase] on every
    string whose upper-case letters all lie in the Basic Latin block; it is
    used only to evaluate concrete inputs. *)
Definition lower_unit (c : code_unit) : code_unit :=
  if ((65 <=? c) && (c <=? 90))%N then (c + 32)%N else c.

Definition toLowerCase_latin (s : jsstring) : jsstring := List.map lower_unit s.

(* ================================================================== *)
(** * Data model *)
(* ================================================================== *)

Module Route.
Inductive t := login | dashboard | offers | messages | reports | profile.
End Route.

Module OfferStatus.
Inductive t := pending | accepted | declined.

Definition eqb (a b : t) : bool :=
  match a, b with
  | pending, pending | accepted, accepted | declined, declined => true
  | _, _ => false
  end.
End OfferStatus.

Module Offer.
Record t := mk {
  id : jsstring;
  projectTitle : jsstring;
  holderName : jsstring;
  budget : float;
  timelineMonths : float;
  technology : jsstring;
  receivedAt : jsstring;
  status : OfferStatus.t;
  note : option jsstring          (* [note?: string] *)
}.
End Offer.

(** [Partial<Offer>]: every property may be absent.  A present [note] may
    itself hold [undefined]. *)
Module Patch.
Record t := mk {
  id : option jsstring;
  projectTitle : option jsstring;
  holderName : option jsstring;
  budget : option float;
  timelineMonths : option float;
  technology : option jsstring;
  receivedAt : option jsstring;
  status : option OfferStatus.t;
  note : option (option jsstring)
}.

Definition empty : t := mk None None None None None None None None None.

(** The object literal [{ status: s }]. *)
Definition of_status (s : OfferStatus.t) : t :=
  mk None None None None None None None (Some s) None.
End Patch.

Module Sender.
Inductive t := provider | holder.
End Sender.

Module ChatMessage.
Record t := mk {
  id : jsstring;
  from : Sender.t;
  body : jsstring;
  at_ : jsstring                   (* [at], an ISO date *)
}.
End ChatMessage.

Module Conversation.
Record t := mk {
  id : jsstring;
  holderName : jsstring;
  holderInitials : jsstring;
  projectTitle : jsstring;
  lastSeenAt : jsstring;
  messages : list ChatMessage.t
}.
End Conversation.

(** The [useState] cells of [ProviderPortalApp]. *)
Record AppState := mkState {
  route : Route.t;
  email : jsstring;
  offers : list Offer.t;
  conversations : list Conversation.t;
  selectedConversationId : option jsstring
}.

(* ================================================================== *)
(** * Store operations *)
(* ================================================================== *)

Definition or_else {A} (x : option A) (d : A) : A :=
  match x with Some v => v | None => d end.

(** [{ ...o, ...next }]. *)
Definition spread (o : Offer.t) (next : Patch.t) : Offer.t :=
  Offer.mk
    (or_else (Patch.id next) (Offer.id o))
    (or_else (Patch.projectTitle next) (Offer.projectTitle o))
    (or_else (Patch.holderName next) (Offer.holderName o))
    (or_else (Patch.budget next) (Offer.budget o))
    (or_else (Patch.timelineMonths next) (Offer.timelineMonths o))
    (or_else (Patch.technology next) (Offer.technology o))
    (or_else (Patch.receivedAt next) (Offer.receivedAt o))
    (or_else (Patch.status next) (Offer.status o))
    (or_else (Patch.note next) (Offer.note o)).

Definition set_offers (f : list Offer.t -> list Offer.t) (st : AppState) : AppState :=
  mkState (route st) (email st) (f (offers st)) (conversations st)
          (selectedConversationId st).

Definition set_conversations (f : list Conversation.t -> list Conversation.t)
  (st : AppState) : AppState :=
  mkState (route st) (email st) (offers st) (f (conversations st))
          (selectedConversationId st).

Definition setRoute (r : Route.t) (st : AppState) : AppState :=
  mkState r (email st) (offers st) (conversations st) (selectedConversationId st).

Definition setEmail (e : jsstring) (st : AppState) : AppState :=
  mkState (route st) e (offers st) (conversations st) (selectedConversationId st).

Definition setSelectedConversationId (i : option jsstring) (st : AppState) : AppState :=
  mkState (route st) (email st) (offers st) (conversations st) i.

Definition handleLogin (e : jsstring) (st : AppState) : AppState :=
  setRoute Route.dashboard (setEmail e st).

(** [setOffers((prev) => prev.map((o) => (o.id === id ? { ...o, ...next } : o)))]. *)
Definition updateOffer (id : jsstring) (next : Patch.t) (st : AppState) : AppState :=
  set_offers
    (List.map (fun o => if str_eqb (Offer.id o) id then spread o next else o)) st.

(** [xs.find(p)]. *)
Fixpoint find_first {A} (p : A -> bool) (xs : list A) : option A :=
  match xs with
  | [] => None
  | x :: xs' => if p x then Some x else find_first p xs'
  end.

Definition openChatFor (holderName : jsstring) (st : AppState) : AppState :=
  match find_first (fun c => str_eqb (Conversation.holderName c) holderName)
                   (conversations st) with
  | Some conv =>
      setRoute Route.messages
        (setSelectedConversationId (Some (Conversation.id conv)) st)
  | None => st
  end.

(** What [sendMessage] reads from its environment: [random_id] is the value of
    [Math.random().toString(36).slice(2)] and [now] the value of
    [new Date().toISOString()] at the call. *)
Record Env := mkEnv { random_id : jsstring; now : jsstring }.

Definition append_message (msg : ChatMessage.t) (c : Conversation.t) : Conversation.t :=
  Conversation.mk (Conversation.id c) (Conversation.holderName c)
    (Conversation.holderInitials c) (Conversation.projectTitle c)
    (Conversation.lastSeenAt c) (Conversation.messages c ++ [msg]).

Definition sendMessage (env : Env) (convId body : jsstring) (st : AppState) : AppState :=
  let msg := ChatMessage.mk (random_id env) Sender.provider body (now env) in
  set_conversations
    (List.map (fun c => if str_eqb (Conversation.id c) convId
                        then append_message msg c else c)) st.

(* ================================================================== *)
(** * Numbers *)
(* ================================================================== *)

(** The number value of an integer (the nearest binary64 value; exact for
    every array length). *)
Definition Number_of_Z (z : Z) : float :=
  SF2Prim (binary_normalize prec emax z 0 false).

Definition Number_of_nat (n : nat) : float := Number_of_Z (Z.of_nat n).

(** [Math.round]: the closest integer, ties toward +Infinity; NaN, the
    infinities, the zeros and integral values are returned as they are, and a
    negative argument that rounds to zero gives -0. *)
Definition Math_round (x : float) : float :=
  match Prim2SF x with
  | S754_finite s m e =>
      if (0 <=? e)%Z then x
      else
        let half := (2 ^ (- e - 1))%Z in
        let n := ((cond_Zopp s (Zpos m) + half) / (2 * half))%Z in
        if (n =? 0)%Z then (if s then neg_zero else zero) else Number_of_Z n
  | _ => x
  end.

(** Decimal digits of a natural number, most significant first; [fuel]
    bounds the number of digits. *)
Fixpoint decimal_fuel (fuel : nat) (n : N) : jsstring :=
  match fuel with
  | O => []
  | S k =>
      if (n <? 10)%N then [(48 + n)%N]
      else decimal_fuel k (n / 10) ++ [(48 + n mod 10)%N]
  end.

(** A number has no more decimal digits than binary ones. *)
Definition decimal (n : N) : jsstring :=
  decimal_fuel (S (N.to_nat (N.size n))) n.

(** The integer a finite number denotes, when it denotes one whose magnitude
    is at most 2^53. *)
Definition safe_integer (x : float) : option Z :=
  match Prim2SF x with
  | S754_zero _ => Some 0%Z
  | S754_finite s m e =>
      if (0 <=? e)%Z then
        let v := (Zpos m * 2 ^ e)%Z in
        if (v <=? 2 ^ 53)%Z then Some (cond_Zopp s v) else None
      else
        let d := (2 ^ (- e))%Z in
        if (Zpos m mod d =? 0)%Z then Some (cond_Zopp s (Zpos m / d)) else None
  | _ => None
  end.

(** The integer part of [m * 2 ^ e], for [m] positive. *)
Definition integer_part (m e : Z) : Z :=
  if (0 <=? e)%Z then (m * 2 ^ e)%Z else (m / 2 ^ (- e))%Z.

(** Services of the JavaScript runtime that the program calls and whose full
    definition (Unicode case mapping, shortest round-trip digits) lies outside
    the repository. *)
Class Runtime := {
  (** [String.prototype.toLowerCase] *)
  toLowerCase : jsstring -> jsstring;
  (** the empty string has no code unit to map *)
  toLowerCase_empty : toLowerCase [] = [];
  (** [Number::toString] on finite values that are not integers of magnitude
      at most 2^53 *)
  Number_toString_other : float -> jsstring
}.

Section WithRuntime.
Context {rt : Runtime}.

(** [Number::toString(x)] in radix 10. *)
Definition Number_toString (x : float) : jsstring :=
  match Prim2SF x with
  | S754_nan => js "NaN"
  | S754_infinity s => if s then js "-Infinity" else js "Infinity"
  | _ =>
      match safe_integer x with
      | Some z => (if (z <? 0)%Z then js "-" else []) ++ decimal (Z.abs_N z)
      | None => Number_toString_other x
      end
  end.

(** Steps 10.b to 10.e of [Number.prototype.toFixed]: the digits of [n] with
    [f] of them after the point. *)
Definition fixed_digits (f : nat) (n : N) : jsstring :=
  let m := decimal n in
  if (f =? 0)%nat then m
  else
    let m' := if (length m <=? f)%nat
              then repeat 48%N (f + 1 - length m) ++ m else m in
    let k := length m' in
    firstn (k - f) m' ++ js "." ++ skipn (k - f) m'.

(** [x.toFixed(f)] for [0 <= f <= 100]. *)
Definition toFixed (f : nat) (x : float) : jsstring :=
  match Prim2SF x with
  | S754_nan | S754_infinity _ => Number_toString x
  | S754_zero _ => fixed_digits f 0
  | S754_finite s m e =>
      let sign := if s then js "-" else [] in
      if (10 ^ 21 <=? integer_part (Zpos m) e)%Z
      then sign ++ Number_toString (abs x)
      else
        let scaled := (Zpos m * 10 ^ Z.of_nat f)%Z in
        let n := if (0 <=? e)%Z then (scaled * 2 ^ e)%Z
                 else ((2 * scaled + 2 ^ (- e)) / (2 * 2 ^ (- e)))%Z in
        sign ++ fixed_digits f (Z.to_N n)
  end.

End WithRuntime.

(** The runtime restricted to what the concrete evaluations below need:
    Basic Latin strings and integral numbers. *)
Definition latin_runtime : Runtime :=
  {| toLowerCase := toLowerCase_latin;
     toLowerCase_empty := eq_refl;
     Number_toString_other := fun _ => [] |}.

(* ================================================================== *)
(** * CSV export *)
(* ================================================================== *)

(** What a cell of a row can hold: the declared [string | number], and the
    [null] and [undefined] that [escape] provides for. *)
Inductive cell :=
| VString (s : jsstring)
| VNumber (x : float)
| VNull
| VUndefined.

(** A flat record: its own enumerable properties in the order of
    [Object.keys]. *)
Definition Row := list (jsstring * cell).

Definition Object_keys (r : Row) : list jsstring := List.map fst r.

(** [r[h]]: a property that is not found reads as [undefined]. *)
Fixpoint get (r : Row) (h : jsstring) : cell :=
  match r with
  | [] => VUndefined
  | (k, v) :: r' => if str_eqb k h then v else get r' h
  end.

Definition quote : code_unit := 34%N.
Definition comma : code_unit := 44%N.
Definition newline : code_unit := 10%N.

(** The test of [escape]: does [s] hold a double quote, a comma or a line
    feed? *)
Definition needs_quoting (s : jsstring) : bool :=
  existsb (fun c => (c =? quote) || (c =? comma) || (c =? newline))%N s.

(** The global replace of [escape]: every double quote is written twice. *)
Definition double_quotes (s : jsstring) : jsstring :=
  flat_map (fun c => if (c =? quote)%N then [quote; quote] else [c]) s.

(** The file handed to the browser: [a.download] and the text of the blob. *)
Record Download := mkDownload { file_name : jsstring; file_text : jsstring }.

Section CsvExport.
Context {rt : Runtime}.

(** [String(v ?? e)] with [e] the empty string. *)
Definition String_of (v : cell) : jsstring :=
  match v with
  | VString s => s
  | VNumber x => Number_toString x
  | VNull | VUndefined => []
  end.

Definition escape (v : cell) : jsstring :=
  let s := String_of v in
  if needs_quoting s then [quote] ++ double_quotes s ++ [quote] else s.

(** [exportCSV]: [None] is the early return on an empty array. *)
Definition exportCSV (filename : jsstring) (rows : list Row) : option Download :=
  match rows with
  | [] => None
  | first :: _ =>
      let headers := Object_keys first in
      let csv :=
        join [newline]
          (join [comma] headers ::
           List.map (fun r => join [comma] (List.map (fun h => escape (get r h)) headers))
                    rows) in
      Some (mkDownload filename csv)
  end.

Definition status_string (s : OfferStatus.t) : jsstring :=
  match s with
  | OfferStatus.pending => js "pending"
  | OfferStatus.accepted => js "accepted"
  | OfferStatus.declined => js "declined"
  end.

Definition exportAll (st : AppState) : option Download :=
  exportCSV (js "offers.csv")
    (List.map (fun o =>
       [ (js "id", VString (Offer.id o));
         (js "project", VString (Offer.projectTitle o));
         (js "holder", VString (Offer.holderName o));
         (js "tech", VString (Offer.technology o));
         (js "budget", VNumber (Offer.budget o));
         (js "months", VNumber (Offer.timelineMonths o));
         (js "received", VString (Offer.receivedAt o));
         (js "status", VString (status_string (Offer.status o))) ])
       (offers st)).

End CsvExport.

(* ================================================================== *)
(** * Derived views *)
(* ================================================================== *)

Definition has_status (s : OfferStatus.t) (o : Offer.t) : bool :=
  OfferStatus.eqb (Offer.status o) s.

(** The values [DashboardPage] computes before rendering. *)
Record DashboardStats := mkDashboard {
  accepted : nat;
  pending : nat;
  declined : nat;
  total : nat;
  acceptanceRate : float
}.

Definition DashboardPage (offers : list Offer.t) : DashboardStats :=
  let accepted := List.length (filter (has_status OfferStatus.accepted) offers) in
  let pending := List.length (filter (has_status OfferStatus.pending) offers) in
  let declined := List.length (filter (has_status OfferStatus.declined) offers) in
  let total := List.length offers in
  let acceptanceRate :=
    if (total =? 0)%nat then 0%float
    else Math_round (Number_of_nat accepted / Number_of_nat total * 100)%float in
  mkDashboard accepted pending declined total acceptanceRate.

(** The values [ReportsPage] computes from the offers before rendering. *)
Record ReportStats := mkReport {
  revenue : float;
  successRate : float;
  avgDuration : jsstring
}.

Section Reports.
Context {rt : Runtime}.

Definition ReportsPage (offers : list Offer.t) : ReportStats :=
  let revenue :=
    fold_left (fun acc o => (acc + Offer.budget o)%float)
              (filter (has_status OfferStatus.accepted) offers) 0%float in
  let successRate :=
    if (List.length offers =? 0)%nat then 0%float
    else Math_round
           (Number_of_nat (List.length (filter (has_status OfferStatus.accepted) offers))
            / Number_of_nat (List.length offers) * 100)%float in
  let avgDuration :=
    if (List.length offers =? 0)%nat then js "0"
    else toFixed 1
           (fold_left (fun acc o => (acc + Offer.timelineMonths o)%float) offers 0%float
            / Number_of_nat (List.length offers))%float in
  mkReport revenue successRate avgDuration.

End Reports.

(** The status selector of [OffersPage]: [all] or one status. *)
Inductive StatusFilter := all | only (s : OfferStatus.t).

Section Offers.
Context {rt : Runtime}.

(** [o.projectTitle], [o.holderName], [o.technology] and [o.id] joined with
    one space. *)
Definition haystack (o : Offer.t) : jsstring :=
  join (js " ")
    [Offer.projectTitle o; Offer.holderName o; Offer.technology o; Offer.id o].

(** [status === all ? true : o.status === status]. *)
Definition status_matches (status : StatusFilter) (o : Offer.t) : bool :=
  match status with
  | all => true
  | only s => OfferStatus.eqb (Offer.status o) s
  end.

(** The memoised [filtered] list of [OffersPage]. *)
Definition filtered (offers : list Offer.t) (query : jsstring) (status : StatusFilter)
  : list Offer.t :=
  let q := toLowerCase (trim query) in
  filter (fun o => if str_falsy q then true
                   else includes (toLowerCase (haystack o)) q)
    (filter (status_matches status) offers).

(** The offer filter as the specification words it: the status matches, and
    the query itself, case folded, occurs in the case-folded haystack; the
    empty query matches every offer. *)
Definition filtered_as_stated (offers : list Offer.t) (query : jsstring)
  (status : StatusFilter) : list Offer.t :=
  filter (fun o => status_matches status o &&
                   (str_falsy query ||
                    includes (toLowerCase (haystack o)) (toLowerCase query)))
         offers.

End Offers.

(** [setStatusFor] of [OffersPage]. *)
Definition setStatusFor (id : jsstring) (s : OfferStatus.t) (st : AppState) : AppState :=
  updateOffer id (Patch.of_status s) st.

(** [c.id === selectedId], where [selectedId] is a string or [null]. *)
Definition selects (selectedId : option jsstring) (c : Conversation.t) : bool :=
  match selectedId with
  | Some i => str_eqb (Conversation.id c) i
  | None => false
  end.

(** [conversations.find((c) => c.id === selectedId) ?? conversations[0]];
    [None] is [undefined]. *)
Definition current (conversations : list Conversation.t) (selectedId : option jsstring)
  : option Conversation.t :=
  match find_first (selects selectedId) conversations with
  | Some c => Some c
  | None => nth_error conversations 0
  end.

(** [handleSend] of [MessagesPage]; the second component is the draft text
    [value] after the call. *)
Definition handleSend (env : Env) (value : jsstring) (st : AppState)
  : AppState * jsstring :=
  let text := trim value in
  match current (conversations st) (selectedConversationId st) with
  | Some c =>
      if str_falsy text then (st, value)
      else (sendMessage env (Conversation.id c) text st, [])
  | None => (st, value)
  end.

(* ================================================================== *)
(** * Seed data *)
(* ================================================================== *)

Definition en_dash : code_unit := 8211%N.

Definition seedOffers : list Offer.t :=
  [ Offer.mk (js "OF-1029") (js "Smart City Kiosk Network") (js "NEO Holdings")
      1850000 6 (js "IoT Integration") (js "2025-08-03") OfferStatus.pending
      (Some (js "Looking for end-to-end provider with proven SLA."));
    Offer.mk (js "OF-1034")
      (js "Cloud Migration " ++ [en_dash] ++ js " Municipal Services")
      (js "Jeddah Municipality")
      2200000 8 (js "Cloud Solutions") (js "2025-08-12") OfferStatus.accepted None;
    Offer.mk (js "OF-1039")
      (js "Mobile App " ++ [en_dash] ++ js " Citizen Portal") (js "Najm Tech")
      640000 4 (js "Mobile Development") (js "2025-08-18") OfferStatus.pending None;
    Offer.mk (js "OF-1042") (js "Factory Telemetry Retrofit") (js "Al Noor Steel")
      930000 5 (js "IoT Integration") (js "2025-08-22") OfferStatus.declined None ].

(** The five dates the seed conversations take from the clock when the module
    is loaded. *)
Record SeedClock := mkSeedClock {
  seen_101 : jsstring;
  hour_ago : jsstring;
  minutes_45_ago : jsstring;
  seen_102 : jsstring;
  minutes_120_ago : jsstring
}.

Definition seedConversations (clk : SeedClock) : list Conversation.t :=
  [ Conversation.mk (js "C-101") (js "NEO Holdings") (js "NH")
      (js "Smart City Kiosk Network") (seen_101 clk)
      [ ChatMessage.mk (js "m1") Sender.holder
          (js "Hi, could you share rough milestones for the kiosk rollout?")
          (hour_ago clk);
        ChatMessage.mk (js "m2") Sender.provider
          (js "Absolutely. Drafting a 3-phase plan: survey, pilot, scale.")
          (minutes_45_ago clk) ];
    Conversation.mk (js "C-102") (js "Jeddah Municipality") (js "JM")
      (js "Cloud Migration " ++ [en_dash] ++ js " Municipal Services") (seen_102 clk)
      [ ChatMessage.mk (js "m1") Sender.holder
          (js "We need RTO <= 30 minutes across regions.")
          (minutes_120_ago clk) ] ].

(** The user intents the presentation layer can raise, and the state each one
    leads to. *)
Inductive Action :=
| Login (typed_email : jsstring)
| Navigate (r : Route.t)
| UpdateOffer (id : jsstring) (next : Patch.t)
| OpenChat (holderName : jsstring)
| SelectConversation (id : jsstring)
| Send (env : Env) (draft : jsstring).

(** [handleSubmit] of [Login]: [onLogin(email || "provider@example.com")]. *)
Definition handleSubmit (typed_email : jsstring) (st : AppState) : AppState :=
  handleLogin (if str_falsy typed_email then js "provider@example.com"
               else typed_email) st.

Definition dispatch (a : Action) (st : AppState) : AppState :=
  match a with
  | Login e => handleSubmit e st
  | Navigate r => setRoute r st
  | UpdateOffer id next => updateOffer id next st
  | OpenChat h => openChatFor h st
  | SelectConversation id => setSelectedConversationId (Some id) st
  | Send env draft => fst (handleSend env draft st)
  end.

Definition run (actions : list Action) (st : AppState) : AppState :=
  fold_left (fun s a => dispatch a s) actions st.

(* ================================================================== *)
(** * Predicates used in the statements *)
(* ================================================================== *)

(** [x'] is [x] except possibly for its status. *)
Definition same_but_status (x x' : Offer.t) : Prop :=
  Offer.id x' = Offer.id x /\
  Offer.projectTitle x' = Offer.projectTitle x /\
  Offer.holderName x' = Offer.holderName x /\
  Offer.budget x' = Offer.budget x /\
  Offer.timelineMonths x' = Offer.timelineMonths x /\
  Offer.technology x' = Offer.technology x /\
  Offer.receivedAt x' = Offer.receivedAt x /\
  Offer.note x' = Offer.note x.

(** [c'] is [c] except possibly for its messages. *)
Definition same_but_messages (c c' : Conversation.t) : Prop :=
  Conversation.id c' = Conversation.id c /\
  Conversation.holderName c' = Conversation.holderName c /\
  Conversation.holderInitials c' = Conversation.holderInitials c /\
  Conversation.projectTitle c' = Conversation.projectTitle c /\
  Conversation.lastSeenAt c' = Conversation.lastSeenAt c.

(** [x] is the first element of [xs] that satisfies [P]. *)
Definition first_such {A} (P : A -> Prop) (xs : list A) (x : A) : Prop :=
  exists pre post, xs = pre ++ x :: post /\ P x /\ forall y, In y pre -> ~ P y.

(** The message ids of a conversation are pairwise distinct. *)
Definition unique_message_ids (c : Conversation.t) : Prop :=
  NoDup (List.map ChatMessage.id (Conversation.messages c)).

(** Every message of every conversation has a non-empty body. *)
Definition bodies_nonempty (st : AppState) : Prop :=
  forall c m, In c (conversations st) -> In m (Conversation.messages c) ->
    ChatMessage.body m <> [].

(** [needle] occurs in [hay] as a contiguous run of code units. *)
Definition substring (needle hay : jsstring) : Prop :=
  exists pre post, hay = pre ++ needle ++ post.

(* ================================================================== *)
(** * Rounding: what the proofs keep track of *)
(* ================================================================== *)

Local Open Scope Z_scope.

(** Some bit was shifted out. *)
Definition inexact (mrs : shr_record) : bool := shr_r mrs || shr_s mrs.

(** What [k] one-bit shifts of [m0], started from the record [mrs0], keep. *)
Definition shifted (m0 : Z) (i0 : bool) (k : Z) (mrs : shr_record) : Prop :=
  shr_m mrs = m0 / 2 ^ k /\
  (inexact mrs = true -> i0 = true \/ m0 mod 2 ^ k <> 0).

(** The position is strictly between two numbers of the grid. *)
Definition loc_inexact (l : location) : bool :=
  match l with loc_Exact => false | _ => true end.

(** A positive number between [Klo * 2 ^ E] and [Khi * 2 ^ E]. *)
Definition between (x : spec_float) (Klo Khi E : Z) : Prop :=
  match x with
  | S754_finite false m e =>
      e <= E /\ Klo * 2 ^ (E - e) <= Z.pos m <= Khi * 2 ^ (E - e)
  | _ => False
  end.

(** ** The aggregates in exact arithmetic

    The rate and the mean as the specification words them, on integers and
    fractions rather than on binary64 numbers. *)

(** The integer nearest to the fraction [p / q], the upper of two equally
    near ones, in exact arithmetic. *)
Definition round_half_up (p q : Z) : Z := (2 * p + q) / (2 * q).

(** The fraction [p / q] lies exactly halfway between two integers. *)
Definition halfway (p q : Z) : Prop := (2 * p + q) mod (2 * q) = 0.

(** The percentage of [accepted] among [total], rounded to the nearest
    integer in exact arithmetic, and 0 when there is no offer. *)
Definition rate_as_stated (accepted total : nat) : Z :=
  match total with
  | O => 0
  | _ => round_half_up (100 * Z.of_nat accepted) (Z.of_nat total)
  end.

(** The sum of a list of integers. *)
Definition sum_Z (l : list Z) : Z := fold_right Z.add 0 l.

(** The text of [n] tenths: the integer part, a point and one digit. *)
Definition one_decimal (n : Z) : jsstring :=
  decimal (Z.to_N n / 10) ++ js "." ++ [(48 + Z.to_N n mod 10)%N].

(** The mean of the months rounded to one decimal in exact arithmetic, and
    the text 0 when there is no offer. *)
Definition avgDuration_as_stated (months : list Z) : jsstring :=
  match months with
  | [] => js "0"
  | _ => one_decimal (round_half_up (10 * sum_Z months) (Z.of_nat (List.length months)))
  end.

(** ** What [toFixed] keeps

    [n] tenths is the one-decimal number nearest to [m * 2 ^ e], the upper of
    two equally near ones. *)
Definition nearest_tenths (m e n : Z) : Prop :=
  if 0 <=? e then n = 10 * m * 2 ^ e
  else 20 * m - 2 ^ (- e) < 2 * n * 2 ^ (- e) <= 20 * m + 2 ^ (- e).

Local Close Scope Z_scope.

(* ================================================================== *)
(** * Concrete inputs *)
(* ================================================================== *)

Definition clock0 : SeedClock :=
  mkSeedClock (js "2025-09-01T10:00:00.000Z") (js "2025-09-01T09:00:00.000Z")
              (js "2025-09-01T09:15:00.000Z") (js "2025-09-01T10:00:00.000Z")
              (js "2025-09-01T08:00:00.000Z").

(** The state of a first run, after the seed data has been taken. *)
Definition seed_state : AppState :=
  mkState Route.login [] seedOffers (seedConversations clock0) (Some (js "C-101")).

(** [Math.random()] returning one half: its base-36 digits after the point are
    the single digit [i]. *)
Definition env_half : Env := mkEnv (js "i") (js "2025-09-01T10:05:00.000Z").

Definition env_half_later : Env := mkEnv (js "i") (js "2025-09-01T10:06:00.000Z").

(** The seed state after the provider has sent one message to [C-101]. *)
Definition after_first_send : AppState :=
  sendMessage env_half (js "C-101") (js "On it.") seed_state.

(** An offer with the given status and timeline; the other fields are those
    of the first seed offer. *)
Definition offer_of (s : OfferStatus.t) (months : float) : Offer.t :=
  Offer.mk (js "OF-1029") (js "Smart City Kiosk Network") (js "NEO Holdings")
    1850000 months (js "IoT Integration") (js "2025-08-03") s None.

(** Forty offers, twenty-three of them accepted. *)
Definition offers_23_of_40 : list Offer.t :=
  repeat (offer_of OfferStatus.accepted 6) 23
  ++ repeat (offer_of OfferStatus.pending 6) 17.

(** Twenty offers: seventeen of one month and three of two months. *)
Definition offers_17_and_3 : list Offer.t :=
  repeat (offer_of OfferStatus.pending 1) 17
  ++ repeat (offer_of OfferStatus.pending 2) 3.

(** Their months. *)
Definition months_17_and_3 : list Z := repeat 1%Z 17 ++ repeat 2%Z 3.

(* ================================================================== *)
(** * The rest of the program *)
(* ================================================================== *)

(** An argument of [clsx]: a string, [false], [null] or [undefined]. *)
Inductive class_arg :=
| CString (s : jsstring)
| CFalse
| CNull
| CUndefined.

(** [Boolean(x)]: only a non-empty string is truthy. *)
Definition Boolean_of (x : class_arg) : bool :=
  match x with
  | CString s => negb (str_falsy s)
  | _ => false
  end.

(** The text [join] gives an element. *)
Definition class_text (x : class_arg) : jsstring :=
  match x with
  | CString s => s
  | CFalse => js "false"
  | CNull | CUndefined => []
  end.

(** [xs.filter(Boolean).join(" ")]. *)
Definition clsx (xs : list class_arg) : jsstring :=
  join (js " ") (List.map class_text (filter Boolean_of xs)).

(** The routes of the [items] of [Sidebar]. *)
Definition sidebar_items : list Route.t :=
  [Route.dashboard; Route.offers; Route.messages; Route.reports; Route.profile].

Definition route_eqb (a b : Route.t) : bool :=
  match a, b with
  | Route.login, Route.login | Route.dashboard, Route.dashboard
  | Route.offers, Route.offers | Route.messages, Route.messages
  | Route.reports, Route.reports | Route.profile, Route.profile => true
  | _, _ => false
  end.

(** Can the rendered tree raise the intent [a] in the state [st]?  On the
    login route only [Login] is rendered.  Elsewhere the sidebar navigates to
    its items; the offers page accepts or declines an offer (through
    [setStatusFor] or the dialog) and opens a chat; the messages page selects
    a listed conversation and sends the draft.  The id and the holder name
    the offers page passes are those of an offer it shows; any value is
    admitted here. *)
Definition raised (st : AppState) (a : Action) : bool :=
  match a with
  | Login _ => route_eqb (route st) Route.login
  | Navigate r =>
      negb (route_eqb (route st) Route.login) && existsb (route_eqb r) sidebar_items
  | UpdateOffer _ (Patch.mk None None None None None None None (Some s) None) =>
      route_eqb (route st) Route.offers &&
      negb (OfferStatus.eqb s OfferStatus.pending)
  | UpdateOffer _ _ => false
  | OpenChat _ => route_eqb (route st) Route.offers
  | SelectConversation i =>
      route_eqb (route st) Route.messages &&
      existsb (fun c => str_eqb (Conversation.id c) i) (conversations st)
  | Send _ _ => route_eqb (route st) Route.messages
  end.

(** Every intent of [actions] is raised in the state the ones before it lead
    to. *)
Fixpoint valid_run (st : AppState) (actions : list Action) : bool :=
  match actions with
  | [] => true
  | a :: rest => raised st a && valid_run (dispatch a st) rest
  end.

(** The selected id names a conversation of the collection, or nothing is
    selected and the collection is empty. *)
Definition selection_valid (st : AppState) : Prop :=
  match selectedConversationId st with
  | Some i => exists c, In c (conversations st) /\ Conversation.id c = i
  | None => conversations st = []
  end.

(** A text that is not empty and neither starts nor ends with white space. *)
Definition trimmed (s : jsstring) : Prop :=
  s <> [] /\
  (forall c rest, s = c :: rest -> is_white_space c = false) /\
  (forall c front, s = front ++ [c] -> is_white_space c = false).

(** Number of offers with a status. *)
Definition count_status (s : OfferStatus.t) (offers : list Offer.t) : nat :=
  List.length (filter (has_status s) offers).

(** Number of occurrences of a code unit. *)
Definition count_unit (c : code_unit) (s : jsstring) : nat :=
  List.length (filter (N.eqb c) s).

(** How a session may change an offer: the status only, and never to
    [pending]. *)
Definition offer_evolves (x x' : Offer.t) : Prop :=
  same_but_status x x' /\
  (Offer.status x' = Offer.status x \/ Offer.status x' <> OfferStatus.pending).

(** A message the composer can send. *)
Definition sent_by_provider (m : ChatMessage.t) : Prop :=
  ChatMessage.from m = Sender.provider /\ trimmed (ChatMessage.body m).

(** How a session may change a conversation: messages of the provider are
    added after the ones it has. *)
Definition conversation_grows (c c' : Conversation.t) : Prop :=
  same_but_messages c c' /\
  exists added,
    Conversation.messages c' = Conversation.messages c ++ added /\
    Forall sent_by_provider added.

Section OfferLine.
Context {rt : Runtime}.

(** The line [exportAll] writes for an offer. *)
Definition offer_line (o : Offer.t) : jsstring :=
  join [comma]
    [ escape (VString (Offer.id o)); escape (VString (Offer.projectTitle o));
      escape (VString (Offer.holderName o)); escape (VString (Offer.technology o));
      escape (VNumber (Offer.budget o)); escape (VNumber (Offer.timelineMonths o));
      escape (VString (Offer.receivedAt o));
      escape (VString (status_string (Offer.status o))) ].

End OfferLine.

(** A session on the seed state: sign in, open the offers, accept the first
    offer, open the chat of its holder and send a message. *)
Definition sample_session : list Action :=
  [ Login [];
    Navigate Route.offers;
    UpdateOffer (js "OF-1029") (Patch.of_status OfferStatus.accepted);
    OpenChat (js "NEO Holdings");
    Send env_half (js "  On it. ") ].

(* ================================================================== *)
(** * Strings: basic facts *)
(* ================================================================== *)

Lemma str_eqb_eq (a b : jsstring) : str_eqb a b = true <-> a = b.
Proof.
  revert b; induction a as [|x a IH]; intros [|y b]; simpl; split;
    try congruence; try reflexivity.
  - intros H. apply andb_true_iff in H as [Hx Hab].
    apply N.eqb_eq in Hx. apply IH in Hab. congruence.
  - intros H. injection H as -> ->. rewrite N.eqb_refl. simpl. now apply IH.
Qed.

Lemma str_eqb_refl (a : jsstring) : str_eqb a a = true.
Proof. now apply str_eqb_eq. Qed.

Lemma str_eqb_neq (a b : jsstring) : str_eqb a b = false <-> a <> b.
Proof.
  split.
  - intros H E. apply str_eqb_eq in E. congruence.
  - intros H. destruct (str_eqb a b) eqn:E; [|reflexivity].
    apply str_eqb_eq in E. contradiction.
Qed.

Lemma str_falsy_nil (s : jsstring) : str_falsy s = true <-> s = [].
Proof. destruct s; simpl; split; congruence. Qed.

(* ================================================================== *)
(** * updateOffer *)
(* ================================================================== *)

Lemma spread_status (x : Offer.t) (s : OfferStatus.t) :
  Offer.status (spread x (Patch.of_status s)) = s /\
  same_but_status x (spread x (Patch.of_status s)).
Proof. unfold same_but_status; simpl; repeat split. Qed.

Lemma map_fixed {A} (f : A -> A) (l : list A) :
  (forall x, In x l -> f x = x) -> List.map f l = l.
Proof.
  induction l as [|a l IH]; simpl; intros H; [reflexivity|].
  rewrite H by now left. f_equal. apply IH. intros; apply H; now right.
Qed.

(** C1. Patching the status of an offer of the collection: at every position
    of the collection, an offer carrying the patched id has the new status and
    keeps all its other fields; an offer carrying another id is left as it is;
    the collection keeps its length and order, the image of the patched offer
    is in it, and nothing else of the state changes. *)
Theorem updateOffer_sets_status (st : AppState) (o : Offer.t) (s : OfferStatus.t) :
  In o (offers st) ->
  List.length (offers (updateOffer (Offer.id o) (Patch.of_status s) st))
    = List.length (offers st) /\
  (forall i x, nth_error (offers st) i = Some x ->
     exists x',
       nth_error (offers (updateOffer (Offer.id o) (Patch.of_status s) st)) i = Some x' /\
       (Offer.id x = Offer.id o -> Offer.status x' = s /\ same_but_status x x') /\
       (Offer.id x <> Offer.id o -> x' = x)) /\
  (exists o', In o' (offers (updateOffer (Offer.id o) (Patch.of_status s) st)) /\
              Offer.status o' = s /\ same_but_status o o') /\
  route (updateOffer (Offer.id o) (Patch.of_status s) st) = route st /\
  email (updateOffer (Offer.id o) (Patch.of_status s) st) = email st /\
  conversations (updateOffer (Offer.id o) (Patch.of_status s) st) = conversations st /\
  selectedConversationId (updateOffer (Offer.id o) (Patch.of_status s) st)
    = selectedConversationId st.
Proof.
  intros Hin. simpl. repeat split.
  - apply length_map.
  - intros i x Hx. rewrite nth_error_map, Hx. simpl.
    destruct (str_eqb (Offer.id x) (Offer.id o)) eqn:E.
    + exists (spread x (Patch.of_status s)). split; [reflexivity|]. split.
      * intros _. apply spread_status.
      * intros Hne. apply str_eqb_eq in E. contradiction.
    + exists x. split; [reflexivity|]. split.
      * intros He. apply str_eqb_neq in E. contradiction.
      * reflexivity.
  - exists (spread o (Patch.of_status s)). split.
    + apply in_map_iff. exists o. now rewrite str_eqb_refl.
    + apply spread_status.
Qed.

Lemma updateOffer_sets_status_witness :
  In (hd (Offer.mk [] [] [] 0 0 [] [] OfferStatus.pending None) seedOffers)
     (offers seed_state) /\
  List.length (offers (updateOffer (js "OF-1029")
                 (Patch.of_status OfferStatus.accepted) seed_state)) = 4%nat.
Proof.
  split.
  - left. reflexivity.
  - exact (proj1 (@updateOffer_sets_status seed_state
                    (hd (Offer.mk [] [] [] 0 0 [] [] OfferStatus.pending None) seedOffers)
                    OfferStatus.accepted (or_introl eq_refl))).
Defined.

(** C2. An id carried by no offer: whatever the patch, the state (and with it
    the offers collection, field by field and in order) is returned as it
    was.  The operation is a total function, so there is no error to raise. *)
Theorem updateOffer_unknown_id (st : AppState) (id : jsstring) (next : Patch.t) :
  (forall o, In o (offers st) -> Offer.id o <> id) ->
  updateOffer id next st = st /\
  offers (updateOffer id next st) = offers st.
Proof.
  intros H.
  assert (E : offers (updateOffer id next st) = offers st).
  { simpl. apply map_fixed. intros x Hx.
    destruct (str_eqb (Offer.id x) id) eqn:Eid; [|reflexivity].
    apply str_eqb_eq in Eid. exfalso. exact (H x Hx Eid). }
  split; [|exact E].
  destruct st as [r e os cs sel]. unfold updateOffer, set_offers in *. simpl in *.
  now rewrite E.
Qed.

Lemma updateOffer_unknown_id_witness :
  updateOffer (js "OF-0000") (Patch.of_status OfferStatus.declined) seed_state
    = seed_state.
Proof.
  refine (proj1 (@updateOffer_unknown_id seed_state (js "OF-0000")
                   (Patch.of_status OfferStatus.declined) _)).
  intros o Hin.
  simpl in Hin.
  repeat (destruct Hin as [<- | Hin]; [vm_compute; discriminate|]).
  contradiction.
Defined.

(* ================================================================== *)
(** * find *)
(* ================================================================== *)

Lemma find_first_first_such {A} (p : A -> bool) (xs : list A) (x : A) :
  first_such (fun y => p y = true) xs x -> find_first p xs = Some x.
Proof.
  intros (pre & post & -> & Hx & Hpre).
  induction pre as [|a pre IH]; simpl.
  - now rewrite Hx.
  - destruct (p a) eqn:E.
    + exfalso. apply (Hpre a); [now left | exact E].
    + apply IH. intros y Hy. apply Hpre. now right.
Qed.

Lemma find_first_none {A} (p : A -> bool) (xs : list A) :
  (forall y, In y xs -> p y = false) -> find_first p xs = None.
Proof.
  induction xs as [|a xs IH]; simpl; intros H; [reflexivity|].
  rewrite (H a) by now left. apply IH. intros; apply H; now right.
Qed.

Lemma find_first_some_in {A} (p : A -> bool) (xs : list A) (x : A) :
  find_first p xs = Some x -> In x xs /\ p x = true.
Proof.
  induction xs as [|a xs IH]; simpl; [discriminate|].
  destruct (p a) eqn:E.
  - intros [= ->]. auto.
  - intros H. destruct (IH H). auto.
Qed.

Lemma first_such_ext {A} (P Q : A -> Prop) (xs : list A) (x : A) :
  (forall y, P y <-> Q y) -> first_such P xs x -> first_such Q xs x.
Proof.
  intros H (pre & post & E & Hx & Hpre).
  exists pre, post. repeat split; [exact E | now apply H |].
  intros y Hy Hq. apply (Hpre y Hy). now apply H.
Qed.

(* ================================================================== *)
(** * sendMessage *)
(* ================================================================== *)

Lemma append_message_spec (msg : ChatMessage.t) (c : Conversation.t) :
  Conversation.messages (append_message msg c) = Conversation.messages c ++ [msg] /\
  same_but_messages c (append_message msg c).
Proof. unfold same_but_messages; simpl; repeat split. Qed.

Lemma NoDup_snoc {A} (l : list A) (a : A) :
  NoDup l -> ~ In a l -> NoDup (l ++ [a]).
Proof.
  intros Hl Ha. apply NoDup_rev in Hl.
  rewrite <- (rev_involutive (l ++ [a])). apply NoDup_rev.
  rewrite rev_app_distr. simpl. constructor; [|exact Hl].
  intros H. apply Ha. now apply in_rev.
Qed.

(** C3 (as amended). Sending a message: at every position of the collection,
    a conversation carrying the given id gets exactly one message appended
    after its prior messages, which keep their order and content; the new
    message carries the id drawn from [Math.random], [from = provider],
    [at = now] and the given body; its id is distinct from the prior ones
    whenever the drawn string is.  A conversation carrying another id is left
    as it is, an id carried by no conversation leaves the state as it was,
    and nothing else of the state changes. *)
Theorem sendMessage_appends_one (env : Env) (convId body : jsstring) (st : AppState) :
  List.length (conversations (sendMessage env convId body st))
    = List.length (conversations st) /\
  (forall i c, nth_error (conversations st) i = Some c ->
     exists c',
       nth_error (conversations (sendMessage env convId body st)) i = Some c' /\
       (Conversation.id c = convId ->
          Conversation.messages c' =
            Conversation.messages c ++
              [ChatMessage.mk (random_id env) Sender.provider body (now env)] /\
          List.length (Conversation.messages c')
            = S (List.length (Conversation.messages c)) /\
          same_but_messages c c' /\
          (unique_message_ids c ->
           (forall m, In m (Conversation.messages c) ->
                      ChatMessage.id m <> random_id env) ->
           unique_message_ids c')) /\
       (Conversation.id c <> convId -> c' = c)) /\
  ((forall c, In c (conversations st) -> Conversation.id c <> convId) ->
   sendMessage env convId body st = st) /\
  route (sendMessage env convId body st) = route st /\
  email (sendMessage env convId body st) = email st /\
  offers (sendMessage env convId body st) = offers st /\
  selectedConversationId (sendMessage env convId body st) = selectedConversationId st.
Proof.
  simpl. repeat split.
  - apply length_map.
  - intros i c Hc. rewrite nth_error_map, Hc. simpl.
    destruct (str_eqb (Conversation.id c) convId) eqn:E.
    + eexists; split; [reflexivity|]. split.
      * intros _. simpl. repeat split.
        -- rewrite length_app. simpl. lia.
        -- intros Hu Hfresh. unfold unique_message_ids in *. simpl.
           rewrite map_app. simpl. apply NoDup_snoc; [exact Hu|].
           intros Hin. apply in_map_iff in Hin as (m & Hm & Hin).
           exact (Hfresh m Hin Hm).
      * intros Hne. apply str_eqb_eq in E. contradiction.
    + exists c. split; [reflexivity|]. split.
      * intros He. apply str_eqb_neq in E. contradiction.
      * reflexivity.
  - intros H. destruct st as [r e os cs sel].
    unfold sendMessage, set_conversations. simpl in *. f_equal.
    apply map_fixed. intros c Hc.
    destruct (str_eqb (Conversation.id c) convId) eqn:E; [|reflexivity].
    apply str_eqb_eq in E. exfalso. exact (H c Hc E).
Qed.

Lemma sendMessage_appends_one_witness :
  List.length (conversations (sendMessage env_half (js "C-101") (js "On it.") seed_state))
    = 2%nat.
Proof.
  exact (proj1 (sendMessage_appends_one env_half (js "C-101") (js "On it.") seed_state)).
Defined.

(** C3 (as stated) fails: the id is whatever [Math.random] gives.  When two
    sends draw the same value, a conversation whose message ids were pairwise
    distinct holds two messages with one id. *)
Lemma sendMessage_id_not_fresh :
  (forall c, In c (conversations after_first_send) -> unique_message_ids c) /\
  ~ (forall c, In c (conversations
                       (sendMessage env_half_later (js "C-101") (js "Sent.")
                                    after_first_send)) ->
               unique_message_ids c).
Proof.
  split.
  - intros c Hc. vm_compute in Hc.
    destruct Hc as [<- | [<- | []]]; unfold unique_message_ids; vm_compute;
      repeat constructor; simpl; intuition discriminate.
  - intros H.
    specialize (H (nth 0 (conversations
                     (sendMessage env_half_later (js "C-101") (js "Sent.")
                                  after_first_send))
                     (Conversation.mk [] [] [] [] [] []))).
    unfold unique_message_ids in H.
    assert (Hin : In (nth 0 (conversations
                     (sendMessage env_half_later (js "C-101") (js "Sent.")
                                  after_first_send))
                     (Conversation.mk [] [] [] [] [] []))
                     (conversations
                       (sendMessage env_half_later (js "C-101") (js "Sent.")
                                    after_first_send))) by (left; reflexivity).
    specialize (H Hin). vm_compute in H.
    inversion H as [|? ? _ H1]; subst. inversion H1 as [|? ? _ H2]; subst.
    inversion H2 as [|? ? H3 _]; subst. apply H3. now left.
Qed.

(* ================================================================== *)
(** * Active conversation *)
(* ================================================================== *)

Lemma current_unfold (convs : list Conversation.t) (sel : option jsstring) :
  current convs sel =
  match find_first (selects sel) convs with
  | Some c => Some c
  | None => hd_error convs
  end.
Proof. unfold current, selects. now destruct convs. Qed.

(** C7. Resolution of the active conversation: when a conversation carries the
    selected id, the first such conversation is returned; when nothing is
    selected or the selected id names no conversation, the first conversation
    of the collection is returned; the result is absent exactly when the
    collection is empty.  The resolution is a total function. *)
Theorem current_resolves (convs : list Conversation.t) (sel : option jsstring) :
  (forall i c, sel = Some i ->
     first_such (fun x => Conversation.id x = i) convs c ->
     current convs sel = Some c) /\
  ((sel = None \/
    exists i, sel = Some i /\ forall x, In x convs -> Conversation.id x <> i) ->
   current convs sel = hd_error convs) /\
  (current convs sel = None <-> convs = []).
Proof.
  rewrite current_unfold. repeat split.
  - intros i c -> Hc.
    erewrite find_first_first_such; [reflexivity|].
    eapply first_such_ext; [|exact Hc].
    intros y. simpl. symmetry. apply str_eqb_eq.
  - intros H. rewrite find_first_none; [reflexivity|].
    intros y Hy. destruct H as [-> | (i & -> & Hi)]; simpl; [reflexivity|].
    apply str_eqb_neq. now apply Hi.
  - destruct (find_first (selects sel) convs) eqn:E; [discriminate|].
    destruct convs; [reflexivity | discriminate].
  - intros ->. reflexivity.
Qed.

(* ================================================================== *)
(** * openChatFor *)
(* ================================================================== *)

(** C8. Opening the chat of a holder: when a conversation has that holder
    name, the first such conversation becomes the selected one and the route
    becomes [messages], the rest of the state being kept; when none has it,
    the state is returned as it was.  On the seed conversations,
    [NEO Holdings] selects [C-101] and switches the route to [messages]. *)
Theorem openChatFor_selects (st : AppState) (h : jsstring) :
  (forall c, first_such (fun x => Conversation.holderName x = h) (conversations st) c ->
     openChatFor h st =
       mkState Route.messages (email st) (offers st) (conversations st)
               (Some (Conversation.id c))) /\
  ((forall x, In x (conversations st) -> Conversation.holderName x <> h) ->
   openChatFor h st = st) /\
  (forall clk, conversations st = seedConversations clk ->
     selectedConversationId (openChatFor (js "NEO Holdings") st) = Some (js "C-101") /\
     route (openChatFor (js "NEO Holdings") st) = Route.messages).
Proof.
  repeat split.
  - intros c Hc. unfold openChatFor.
    erewrite find_first_first_such; [reflexivity|].
    eapply first_such_ext; [|exact Hc].
    intros y. simpl. symmetry. apply str_eqb_eq.
  - intros H. unfold openChatFor. rewrite find_first_none; [reflexivity|].
    intros y Hy. apply str_eqb_neq. now apply H.
  - unfold openChatFor. rewrite H. reflexivity.
  - unfold openChatFor. rewrite H. reflexivity.
Qed.

(* ================================================================== *)
(** * handleSend *)
(* ================================================================== *)

Lemma sendMessage_bodies (env : Env) (convId body : jsstring) (st : AppState) :
  body <> [] -> bodies_nonempty st -> bodies_nonempty (sendMessage env convId body st).
Proof.
  intros Hb Hst c m Hc Hm. simpl in Hc.
  apply in_map_iff in Hc as (c0 & <- & Hc0).
  destruct (str_eqb (Conversation.id c0) convId).
  - simpl in Hm. apply in_app_or in Hm as [Hm | [<- | []]].
    + exact (Hst c0 m Hc0 Hm).
    + exact Hb.
  - exact (Hst c0 m Hc0 Hm).
Qed.

Lemma handleSend_bodies (env : Env) (value : jsstring) (st : AppState) :
  bodies_nonempty st -> bodies_nonempty (fst (handleSend env value st)).
Proof.
  intros Hst. unfold handleSend.
  destruct (current (conversations st) (selectedConversationId st)) as [c|];
    [|exact Hst].
  destruct (str_falsy (trim value)) eqn:E; [exact Hst|].
  simpl. apply sendMessage_bodies; [|exact Hst].
  intros Hnil. rewrite Hnil in E. discriminate.
Qed.

Lemma dispatch_bodies (a : Action) (st : AppState) :
  bodies_nonempty st -> bodies_nonempty (dispatch a st).
Proof.
  intros Hst. destruct a; simpl; try exact Hst.
  - unfold openChatFor.
    destruct (find_first _ (conversations st)); exact Hst.
  - now apply handleSend_bodies.
Qed.

(** C10. The send handler of the composer trims the draft.  When the trimmed
    text is empty or no conversation resolves as current, the state and the
    draft are returned as they were; otherwise the trimmed text is sent to the
    current conversation and the draft is cleared.  Hence a state in which
    every message has a non-empty body stays so after the handler, and after
    any sequence of user intents. *)
Theorem handleSend_guards (env : Env) (value : jsstring) (st : AppState) :
  (trim value = [] \/ current (conversations st) (selectedConversationId st) = None ->
   handleSend env value st = (st, value)) /\
  (forall c, trim value <> [] ->
     current (conversations st) (selectedConversationId st) = Some c ->
     handleSend env value st
       = (sendMessage env (Conversation.id c) (trim value) st, [])) /\
  (bodies_nonempty st -> bodies_nonempty (fst (handleSend env value st))) /\
  (forall actions, bodies_nonempty st -> bodies_nonempty (run actions st)).
Proof.
  repeat split.
  - intros [H | H]; unfold handleSend; rewrite H.
    + simpl. now destruct (current _ _).
    + reflexivity.
  - intros c Ht Hc. unfold handleSend. rewrite Hc.
    destruct (trim value); [contradiction | reflexivity].
  - apply handleSend_bodies.
  - intros actions. revert st. unfold run.
    induction actions as [|a actions IH]; intros st Hst; simpl; [exact Hst|].
    apply IH. now apply dispatch_bodies.
Qed.

(* ================================================================== *)
(** * Offer filter *)
(* ================================================================== *)

Lemma startsWith_prefix (hay needle : jsstring) :
  startsWith hay needle = true <-> exists post, hay = needle ++ post.
Proof.
  revert hay. induction needle as [|n needle IH]; intros hay; simpl.
  - destruct hay; split; eauto.
  - destruct hay as [|h hay]; simpl.
    + split; [discriminate | intros (post & H); discriminate].
    + split.
      * intros H. apply andb_true_iff in H as [Hn Hr].
        apply N.eqb_eq in Hn. apply IH in Hr as (post & ->).
        exists post. now subst.
      * intros (post & H). injection H as -> ->.
        rewrite N.eqb_refl. simpl. apply IH. now exists post.
Qed.

Lemma includes_substring (hay needle : jsstring) :
  includes hay needle = true <-> substring needle hay.
Proof.
  unfold substring. induction hay as [|h hay IH]; cbn [includes].
  - rewrite orb_false_r, startsWith_prefix. split.
    + intros (post & ->). now exists [], post.
    + intros (pre & post & H). destruct pre; simpl in H.
      * now exists post.
      * discriminate.
  - rewrite orb_true_iff, startsWith_prefix, IH. split.
    + intros [(post & ->) | (pre & post & ->)].
      * now exists [], post.
      * now exists (h :: pre), post.
    + intros (pre & post & H). destruct pre as [|p pre]; simpl in H.
      * left. now exists post.
      * right. injection H as -> ->. now exists pre, post.
Qed.

Lemma filter_filter {A} (p q : A -> bool) (l : list A) :
  filter p (filter q l) = filter (fun x => q x && p x) l.
Proof.
  induction l as [|a l IH]; simpl; [reflexivity|].
  destruct (q a); simpl; [destruct (p a)|]; now rewrite IH.
Qed.

Lemma status_matches_spec (status : StatusFilter) (o : Offer.t) :
  status_matches status o = true <-> status = all \/ status = only (Offer.status o).
Proof.
  destruct status as [|s]; simpl.
  - split; auto.
  - split.
    + intros H. right. destruct (Offer.status o), s; simpl in H;
        (reflexivity || discriminate).
    + intros [H | H]; [discriminate|]. injection H as ->.
      now destruct (Offer.status o).
Qed.

Section OfferFilter.
Context {rt : Runtime}.

(** C4 (as amended). The offer filter returns, in the order of the source
    collection, exactly the offers whose status equals the filter (every
    status when the filter is [all]) and for which the query, trimmed of
    surrounding white space and lower-cased, is empty or occurs in the
    lower-cased haystack: project title, holder name, technology and id
    joined with single spaces. *)
Theorem filtered_exact (offers : list Offer.t) (query : jsstring)
  (status : StatusFilter) :
  filtered offers query status =
    filter (fun o => status_matches status o &&
                     (str_falsy (toLowerCase (trim query)) ||
                      includes (toLowerCase (haystack o)) (toLowerCase (trim query))))
           offers /\
  (forall o, In o (filtered offers query status) <->
     In o offers /\
     (status = all \/ status = only (Offer.status o)) /\
     (toLowerCase (trim query) = [] \/
      substring (toLowerCase (trim query)) (toLowerCase (haystack o)))) /\
  (forall o, haystack o =
     Offer.projectTitle o ++ js " " ++ Offer.holderName o ++ js " " ++
     Offer.technology o ++ js " " ++ Offer.id o) /\
  (trim query = [] ->
   filtered offers query status = filter (status_matches status) offers).
Proof.
  assert (E : filtered offers query status =
    filter (fun o => status_matches status o &&
                     (str_falsy (toLowerCase (trim query)) ||
                      includes (toLowerCase (haystack o)) (toLowerCase (trim query))))
           offers).
  { unfold filtered. rewrite filter_filter. apply filter_ext. intros o.
    now destruct (str_falsy (toLowerCase (trim query))). }
  repeat split.
  - exact E.
  - rewrite E in H. apply filter_In in H. tauto.
  - rewrite E in H. apply filter_In in H as [_ H].
    apply andb_true_iff in H as [H _]. now apply status_matches_spec.
  - rewrite E in H. apply filter_In in H as [_ H].
    apply andb_true_iff in H as [_ H]. apply orb_true_iff in H as [H | H].
    + left. now apply str_falsy_nil.
    + right. now apply includes_substring.
  - intros (Hin & Hst & Hq). rewrite E. apply filter_In. split; [exact Hin|].
    apply andb_true_iff. split; [now apply status_matches_spec|].
    apply orb_true_iff. destruct Hq as [Hq | Hq].
    + left. now apply str_falsy_nil.
    + right. now apply includes_substring.
  - intros Hq. rewrite E, Hq, toLowerCase_empty. simpl.
    apply filter_ext. intros o. apply andb_true_r.
Qed.

End OfferFilter.

(** C4 (as stated) fails: the code trims the query before matching.  The
    query made of the first seed id followed by one space keeps that offer,
    although its haystack ends with the id and so does not hold the query. *)
Lemma filtered_trims_query :
  @filtered latin_runtime seedOffers (js "OF-1029 ") all = firstn 1 seedOffers /\
  @filtered_as_stated latin_runtime seedOffers (js "OF-1029 ") all = [].
Proof. split; vm_compute; reflexivity. Qed.

(* ================================================================== *)
(** * CSV export *)
(* ================================================================== *)

Lemma needs_quoting_spec (s : jsstring) :
  needs_quoting s = true <-> In quote s \/ In comma s \/ In newline s.
Proof.
  unfold needs_quoting. rewrite existsb_exists. split.
  - intros (c & Hc & H).
    apply orb_true_iff in H as [H | H]; [apply orb_true_iff in H as [H | H]|];
      apply N.eqb_eq in H; subst; auto.
  - intros [H | [H | H]]; eexists; (split; [exact H|]); reflexivity.
Qed.

Lemma double_quotes_plain (s : jsstring) :
  ~ In quote s -> double_quotes s = s.
Proof.
  induction s as [|c s IH]; simpl; intros H; [reflexivity|].
  destruct (c =? quote)%N eqn:E.
  - apply N.eqb_eq in E. exfalso. apply H. now left.
  - simpl. f_equal. apply IH. intros Hin. apply H. now right.
Qed.

Lemma double_quotes_app (a b : jsstring) :
  double_quotes (a ++ b) = double_quotes a ++ double_quotes b.
Proof. apply flat_map_app. Qed.

(** A record has one value for each of its keys. *)
Lemma get_in (r : Row) (h : jsstring) (v : cell) :
  NoDup (Object_keys r) -> In (h, v) r -> get r h = v.
Proof.
  unfold Object_keys.
  induction r as [|[k w] r IH]; cbn [get List.map fst]; intros Hnd Hin;
    [contradiction|].
  inversion Hnd as [|? ? Hk Hr]; subst.
  destruct Hin as [[= -> ->] | Hin].
  - now rewrite str_eqb_refl.
  - destruct (str_eqb k h) eqn:E; [|now apply IH].
    apply str_eqb_eq in E. subst. exfalso. apply Hk.
    apply in_map_iff. now exists (h, v).
Qed.

Lemma get_own_keys (f : cell -> jsstring) (r : Row) :
  NoDup (Object_keys r) ->
  List.map (fun h => f (get r h)) (Object_keys r) = List.map (fun kv => f (snd kv)) r.
Proof.
  intros Hnd. unfold Object_keys. rewrite map_map.
  apply map_ext_in. intros [k v] Hin. cbn [fst snd]. f_equal.
  now apply get_in.
Qed.

Section CsvTheorems.
Context {rt : Runtime}.

(** C9. For a non-empty sequence of flat records, the exported text is its
    lines joined by line feeds: first the field names of the first record
    joined by commas, then one line per record, in order, whose cells joined
    by commas are, column by column, the escaped value the record has for
    that field name; a record with the keys of the first one in the same
    order is written as its own values in order.  A value holding a comma, a
    double quote or a line feed is wrapped in double quotes with every double
    quote written twice; any other value is written as it is; [null] and
    [undefined] become the empty string and numbers are stringified.  The
    empty sequence produces no file.  The rows [{a:1, b:"x,y"}] give the
    header [a,b] and the data row [1,"x,y"]. *)
Theorem exportCSV_document (filename : jsstring) (first : Row) (rest : list Row) :
  (forall r, In r (first :: rest) -> NoDup (Object_keys r)) ->
  (exists lines,
     exportCSV filename (first :: rest) =
       Some (mkDownload filename
               (join [newline] (join [comma] (Object_keys first) :: lines))) /\
     List.length lines = List.length (first :: rest) /\
     forall j r, nth_error (first :: rest) j = Some r ->
       exists cells,
         nth_error lines j = Some (join [comma] cells) /\
         List.length cells = List.length (Object_keys first) /\
         (forall i h v, nth_error (Object_keys first) i = Some h ->
                        In (h, v) r ->
                        nth_error cells i = Some (escape v)) /\
         (Object_keys r = Object_keys first ->
          cells = List.map (fun kv => escape (snd kv)) r)) /\
  (forall v, ~ In quote (String_of v) -> ~ In comma (String_of v) ->
             ~ In newline (String_of v) -> escape v = String_of v) /\
  (forall v, In quote (String_of v) \/ In comma (String_of v) \/
             In newline (String_of v) ->
             escape v = [quote] ++ double_quotes (String_of v) ++ [quote]) /\
  (forall a b, double_quotes (a ++ [quote] ++ b)
               = double_quotes a ++ [quote; quote] ++ double_quotes b) /\
  (forall s, ~ In quote s -> double_quotes s = s) /\
  String_of VNull = [] /\ String_of VUndefined = [] /\
  (forall s, String_of (VString s) = s) /\
  (forall x, String_of (VNumber x) = Number_toString x) /\
  exportCSV filename [] = None /\
  exportCSV filename [[(js "a", VNumber 1); (js "b", VString (js "x,y"))]] =
    Some (mkDownload filename
            (js "a,b" ++ [newline] ++ js "1," ++ [quote] ++ js "x,y" ++ [quote])).
Proof.
  intros Hnd. repeat split.
  - eexists. split; [reflexivity|]. split; [apply length_map|].
    intros j r Hr. rewrite nth_error_map, Hr. cbn [option_map].
    eexists. split; [reflexivity|]. split; [apply length_map|]. split.
    + intros i h v Hh Hin. rewrite nth_error_map, Hh. cbn [option_map].
      do 2 f_equal. apply get_in; [|exact Hin].
      apply Hnd. eapply nth_error_In; eassumption.
    + intros Hk. rewrite <- Hk. apply get_own_keys.
      apply Hnd. eapply nth_error_In; eassumption.
  - intros v Hq Hc Hn. unfold escape.
    destruct (needs_quoting (String_of v)) eqn:E; [|reflexivity].
    apply needs_quoting_spec in E. tauto.
  - intros v H. unfold escape.
    apply needs_quoting_spec in H. now rewrite H.
  - intros a b. now rewrite !double_quotes_app.
  - apply double_quotes_plain.
Qed.

End CsvTheorems.

Lemma exportCSV_document_witness :
  exists lines,
    @exportCSV latin_runtime (js "offers.csv")
       [[(js "a", VNumber 1); (js "b", VString (js "x,y"))];
        [(js "b", VNull); (js "a", VNumber 2)]] =
      Some (mkDownload (js "offers.csv")
              (join [newline] (join [comma] [js "a"; js "b"] :: lines))) /\
    List.length lines = 2%nat.
Proof.
  assert (Hnd : forall r,
            In r [[(js "a", VNumber 1); (js "b", VString (js "x,y"))];
                  [(js "b", VNull); (js "a", VNumber 2)]] ->
            NoDup (Object_keys r)).
  { intros r [<- | [<- | []]]; vm_compute;
      repeat constructor; simpl; intuition discriminate. }
  destruct (proj1 (@exportCSV_document latin_runtime (js "offers.csv") _ _ Hnd))
    as (lines & Heq & Hlen & _).
  exists lines. split; [exact Heq | exact Hlen].
Defined.

(* ================================================================== *)
(** * Binary64 arithmetic: rounding between bounds of the format *)
(* ================================================================== *)

Section Binary64.
Local Open Scope Z_scope.

(** ** Number of binary digits *)

Lemma digits2_pos_bounds (p : positive) :
  2 ^ (Z.pos (digits2_pos p) - 1) <= Z.pos p < 2 ^ Z.pos (digits2_pos p).
Proof.
  induction p as [p IH|p IH|]; cbn [digits2_pos].
  - rewrite Pos2Z.inj_succ, Pos2Z.inj_xI.
    replace (Z.succ (Z.pos (digits2_pos p)) - 1) with (Z.succ (Z.pos (digits2_pos p) - 1)) by lia.
    rewrite !Z.pow_succ_r by lia. lia.
  - rewrite Pos2Z.inj_succ. change (Z.pos p~0) with (2 * Z.pos p).
    replace (Z.succ (Z.pos (digits2_pos p)) - 1) with (Z.succ (Z.pos (digits2_pos p) - 1)) by lia.
    rewrite !Z.pow_succ_r by lia. lia.
  - cbn. lia.
Qed.

Lemma Zdigits2_bounds (m : Z) :
  0 < m -> 2 ^ (Zdigits2 m - 1) <= m < 2 ^ Zdigits2 m.
Proof.
  destruct m as [|p|p]; try lia. intros _. apply digits2_pos_bounds.
Qed.

Lemma Zdigits2_nonneg (m : Z) : 0 <= m -> 0 <= Zdigits2 m.
Proof. destruct m; cbn; lia. Qed.

Lemma Zdigits2_le (m k : Z) : 0 <= m -> 0 <= k -> m < 2 ^ k -> Zdigits2 m <= k.
Proof.
  intros Hm Hk Hlt. destruct (Z.eq_dec m 0) as [->|Hne]; [cbn; lia|].
  destruct (Zdigits2_bounds m) as [Hlo _]; [lia|].
  assert (H : 2 ^ (Zdigits2 m - 1) < 2 ^ k) by lia.
  apply Z.pow_lt_mono_r_iff in H; lia.
Qed.

(** ** Shifting right with a sticky record *)

Lemma shr_1_m (mrs : shr_record) :
  0 <= shr_m mrs -> shr_m (shr_1 mrs) = shr_m mrs / 2.
Proof.
  destruct mrs as [m r s]. cbn [shr_m]. intros Hm.
  destruct m as [|p|p]; [reflexivity| |lia].
  destruct p as [p|p|]; cbn [shr_1 shr_m].
  - rewrite Pos2Z.inj_xI. apply Z.div_unique with (r := 1); lia.
  - change (Z.pos p~0) with (2 * Z.pos p). apply Z.div_unique with (r := 0); lia.
  - reflexivity.
Qed.

Lemma shr_1_inexact (mrs : shr_record) :
  0 <= shr_m mrs ->
  inexact (shr_1 mrs) = inexact mrs || Z.odd (shr_m mrs).
Proof.
  destruct mrs as [m r s]. unfold inexact. cbn [shr_m shr_r shr_s]. intros Hm.
  destruct m as [|p|p]; [| |lia].
  - cbn. now destruct r, s.
  - destruct p; cbn; now destruct r, s.
Qed.

Lemma shifted_step (m0 : Z) (i0 : bool) (k : Z) (mrs : shr_record) :
  0 <= m0 -> 0 <= k ->
  shifted m0 i0 k mrs -> shifted m0 i0 (k + 1) (shr_1 mrs).
Proof.
  intros Hm Hk [Hs Hi].
  assert (Hpos : 0 < 2 ^ k) by (apply Z.pow_pos_nonneg; lia).
  assert (Hnn : 0 <= shr_m mrs) by (rewrite Hs; apply Z.div_pos; lia).
  assert (Hp : 2 ^ (k + 1) = 2 ^ k * 2) by (rewrite Z.pow_add_r by lia; reflexivity).
  split.
  - rewrite shr_1_m by exact Hnn. rewrite Hs, Hp.
    now rewrite Z.div_div by lia.
  - rewrite shr_1_inexact by exact Hnn. intros H.
    apply orb_true_iff in H as [H | H].
    + destruct (Hi H) as [Hi0 | Hmod]; [now left|]. right.
      intros Hz. apply Hmod.
      apply Z.mod_divide in Hz; [|lia]. apply Z.mod_divide; [lia|].
      destruct Hz as [c Hc]. exists (c * 2). rewrite Hc, Hp. ring.
    + right. intros Hz. apply Z.mod_divide in Hz; [|lia].
      destruct Hz as [c Hc]. rewrite Hs in H.
      rewrite Hc, Hp in H.
      replace (c * (2 ^ k * 2)) with ((c * 2) * 2 ^ k) in H by ring.
      rewrite Z.div_mul in H by lia.
      rewrite Z.mul_comm, Z.odd_mul in H. discriminate.
Qed.

Lemma iter_pos_shifted (m0 : Z) (i0 : bool) (p : positive) :
  0 <= m0 ->
  forall k mrs, 0 <= k -> shifted m0 i0 k mrs ->
  shifted m0 i0 (k + Z.pos p) (iter_pos shr_1 p mrs).
Proof.
  intros Hm. induction p as [p IH|p IH|]; intros k mrs Hk H; cbn [iter_pos].
  - replace (k + Z.pos p~1) with (k + 1 + Z.pos p + Z.pos p) by lia.
    apply IH; [lia|]. apply IH; [lia|]. now apply shifted_step.
  - replace (k + Z.pos p~0) with (k + Z.pos p + Z.pos p) by lia.
    apply IH; [lia|]. now apply IH.
  - now apply shifted_step.
Qed.

Lemma shifted_start (m : Z) (l : location) :
  shifted m (negb match l with loc_Exact => true | _ => false end) 0
          (shr_record_of_loc m l).
Proof.
  split.
  - rewrite Z.pow_0_r, Z.div_1_r. now destruct l as [|[]].
  - destruct l as [|[]]; cbn; auto; discriminate.
Qed.

Lemma round_nearest_even_bounds (mrs : shr_record) :
  shr_m mrs <= round_nearest_even (shr_m mrs) (loc_of_shr_record mrs)
    <= shr_m mrs + (if inexact mrs then 1 else 0).
Proof.
  destruct mrs as [m [] []]; cbn; try lia.
  destruct (Z.even m); lia.
Qed.

(** ** Rounding between numbers of the format *)

Lemma fexp_eq (d : Z) : fexp prec emax d = Z.max (d - 53) (-1074).
Proof. reflexivity. Qed.

Lemma pow2_split (a b : Z) : 0 <= a -> 0 <= b -> 2 ^ (a + b) = 2 ^ a * 2 ^ b.
Proof. intros. now rewrite Z.pow_add_r. Qed.

Lemma shr_fexp_le (m e : Z) (l : location) (K E : Z) :
  0 <= m -> 0 < K < 2 ^ 53 -> -1074 <= E -> e <= E ->
  m + (if loc_inexact l then 1 else 0) <= K * 2 ^ (E - e) ->
  e <= snd (shr_fexp prec emax m e l) <= E /\
  0 <= shr_m (fst (shr_fexp prec emax m e l)) /\
  round_nearest_even (shr_m (fst (shr_fexp prec emax m e l)))
                     (loc_of_shr_record (fst (shr_fexp prec emax m e l)))
    <= K * 2 ^ (E - snd (shr_fexp prec emax m e l)).
Proof.
  intros Hm HK HE He Hb.
  assert (Hd : Zdigits2 m + e - 53 <= E).
  { assert (Zdigits2 m <= 53 + (E - e)); [|lia].
    apply Zdigits2_le; [lia|lia|].
    rewrite pow2_split by lia.
    assert (0 < 2 ^ (E - e)) by (apply Z.pow_pos_nonneg; lia).
    destruct (loc_inexact l); nia. }
  unfold shr_fexp, shr. rewrite fexp_eq.
  set (n := Z.max (Zdigits2 m + e - 53) (-1074) - e).
  assert (Hstart := shifted_start m l).
  assert (Hi0 : negb match l with loc_Exact => true | _ => false end = loc_inexact l)
    by now destruct l.
  rewrite Hi0 in Hstart. clear Hi0.
  destruct n as [|p|p] eqn:En; cbn [fst snd].
  - split; [lia|]. destruct Hstart as [Hs _].
    rewrite Z.pow_0_r, Z.div_1_r in Hs. split; [lia|].
    pose proof (round_nearest_even_bounds (shr_record_of_loc m l)) as Hr.
    rewrite Hs in Hr.
    assert (Hin : inexact (shr_record_of_loc m l) = loc_inexact l)
      by now destruct l as [|[]].
    rewrite Hin in Hr. rewrite Hs. lia.
  - pose proof (@iter_pos_shifted m (loc_inexact l) p Hm 0 _ (Z.le_refl 0) Hstart) as [Hs Hi].
    rewrite Z.add_0_l in Hs, Hi.
    set (mrs := iter_pos shr_1 p (shr_record_of_loc m l)) in *.
    assert (He' : e + Z.pos p <= E) by lia.
    assert (Hpp : 0 < 2 ^ Z.pos p) by (apply Z.pow_pos_nonneg; lia).
    assert (Hsplit : 2 ^ (E - e) = 2 ^ (E - (e + Z.pos p)) * 2 ^ Z.pos p).
    { rewrite <- pow2_split by lia. f_equal. lia. }
    set (b := K * 2 ^ (E - (e + Z.pos p))).
    assert (Hb' : m + (if loc_inexact l then 1 else 0) <= b * 2 ^ Z.pos p).
    { unfold b. rewrite Hsplit in Hb. lia. }
    split; [lia|]. split; [rewrite Hs; apply Z.div_pos; lia|].
    pose proof (round_nearest_even_bounds mrs) as Hr.
    destruct (inexact mrs) eqn:Hin.
    + assert (Hlt : m < b * 2 ^ Z.pos p).
      { destruct (Hi eq_refl) as [Hl | Hmod].
        - rewrite Hl in Hb'. lia.
        - destruct (Z.eq_dec m (b * 2 ^ Z.pos p)) as [Heq|Hne].
          + exfalso. apply Hmod. rewrite Heq. apply Z.mod_mul. lia.
          + destruct (loc_inexact l); lia. }
      assert (m / 2 ^ Z.pos p < b) by (apply Z.div_lt_upper_bound; lia).
      rewrite Hs in Hr. rewrite Hs. lia.
    + assert (m / 2 ^ Z.pos p <= b).
      { apply Z.div_le_upper_bound; [lia|]. destruct (loc_inexact l); lia. }
      rewrite Hs in Hr. rewrite Hs. lia.
  - split; [lia|]. destruct Hstart as [Hs _].
    rewrite Z.pow_0_r, Z.div_1_r in Hs. split; [lia|].
    pose proof (round_nearest_even_bounds (shr_record_of_loc m l)) as Hr.
    rewrite Hs in Hr.
    assert (Hin : inexact (shr_record_of_loc m l) = loc_inexact l)
      by now destruct l as [|[]].
    rewrite Hin in Hr. rewrite Hs. lia.
Qed.

Lemma shr_fexp_ge (m e : Z) (l : location) (K E : Z) :
  0 <= m -> 0 <= K -> e <= E ->
  snd (shr_fexp prec emax m e l) <= E ->
  K * 2 ^ (E - e) <= m ->
  K * 2 ^ (E - snd (shr_fexp prec emax m e l))
    <= shr_m (fst (shr_fexp prec emax m e l)).
Proof.
  intros Hm HK He. unfold shr_fexp, shr.
  assert (Hstart := shifted_start m l).
  destruct (fexp prec emax (Zdigits2 m + e) - e) as [|p|p]; cbn [fst snd];
    intros He' Hb.
  - destruct Hstart as [Hs _]. rewrite Z.pow_0_r, Z.div_1_r in Hs. now rewrite Hs.
  - pose proof (@iter_pos_shifted m _ p Hm 0 _ (Z.le_refl 0) Hstart) as [Hs _].
    rewrite Z.add_0_l in Hs. rewrite Hs.
    assert (Hpp : 0 < 2 ^ Z.pos p) by (apply Z.pow_pos_nonneg; lia).
    assert (Hsplit : 2 ^ (E - e) = 2 ^ (E - (e + Z.pos p)) * 2 ^ Z.pos p).
    { rewrite <- pow2_split by lia. f_equal. lia. }
    apply Z.div_le_lower_bound; [lia|]. rewrite Hsplit in Hb. lia.
  - destruct Hstart as [Hs _]. rewrite Z.pow_0_r, Z.div_1_r in Hs. now rewrite Hs.
Qed.

(** Rounding a value that lies between [Klo * 2 ^ E] and [Khi * 2 ^ E], two
    numbers of the format, gives a number between them. *)
Lemma binary_round_aux_between (m e : Z) (l : location) (Klo Khi E : Z) :
  0 <= m -> 0 < Klo -> 0 < Khi < 2 ^ 53 -> -1074 <= E <= 971 -> e <= E ->
  Klo * 2 ^ (E - e) <= m ->
  m + (if loc_inexact l then 1 else 0) <= Khi * 2 ^ (E - e) ->
  between (binary_round_aux prec emax false m e l) Klo Khi E.
Proof.
  intros Hm HKlo HKhi HE He Hlo Hhi. unfold binary_round_aux.
  destruct (@shr_fexp_le m e l Khi E Hm HKhi (proj1 HE) He Hhi) as (He1 & Hm1 & Hc1).
  pose proof (@shr_fexp_ge m e l Klo E Hm (Z.lt_le_incl _ _ HKlo) He (proj2 He1) Hlo)
    as Hl1.
  destruct (shr_fexp prec emax m e l) as [mrs1 e1]. cbn [fst snd] in *.
  pose proof (round_nearest_even_bounds mrs1) as Hr1.
  set (c := round_nearest_even (shr_m mrs1) (loc_of_shr_record mrs1)) in *.
  assert (Hc0 : 0 <= c) by lia.
  assert (Hb2 : c + (if loc_inexact loc_Exact then 1 else 0) <= Khi * 2 ^ (E - e1))
    by (cbn; lia).
  destruct (@shr_fexp_le c e1 loc_Exact Khi E Hc0 HKhi (proj1 HE) (proj2 He1) Hb2)
    as (He2 & Hm2 & Hc2).
  assert (Hlc : Klo * 2 ^ (E - e1) <= c) by lia.
  pose proof (@shr_fexp_ge c e1 loc_Exact Klo E Hc0 (Z.lt_le_incl _ _ HKlo)
                (proj2 He1) (proj2 He2) Hlc) as Hl2.
  destruct (shr_fexp prec emax c e1 loc_Exact) as [mrs2 e2]. cbn [fst snd] in *.
  pose proof (round_nearest_even_bounds mrs2) as Hr2.
  assert (Hpos : 0 < Klo * 2 ^ (E - e2)).
  { apply Z.mul_pos_pos; [lia|]. apply Z.pow_pos_nonneg; lia. }
  destruct (shr_m mrs2) as [|p|p] eqn:Em; [lia| |lia].
  assert (Hle : (e2 <=? emax - prec) = true)
    by (apply Z.leb_le; change (emax - prec) with 971; lia).
  rewrite Hle. cbn. repeat split; lia.
Qed.

(** ** Integers as numbers *)

Lemma Zdigits2_unique (m d : Z) :
  2 ^ (d - 1) <= m < 2 ^ d -> 0 < d -> Zdigits2 m = d.
Proof.
  intros [Hlo Hhi] Hd.
  assert (Hm : 0 < m).
  { assert (0 < 2 ^ (d - 1)) by (apply Z.pow_pos_nonneg; lia). lia. }
  destruct (Zdigits2_bounds m Hm) as [Hlo' Hhi'].
  pose proof (Zdigits2_nonneg m (Z.lt_le_incl _ _ Hm)) as Hnn.
  assert (H1 : 2 ^ (d - 1) < 2 ^ Zdigits2 m) by lia.
  apply Z.pow_lt_mono_r_iff in H1; [|lia|lia].
  assert (Hd1 : 0 < Zdigits2 m).
  { destruct m; cbn in *; lia. }
  assert (H2 : 2 ^ (Zdigits2 m - 1) < 2 ^ d) by lia.
  apply Z.pow_lt_mono_r_iff in H2; lia.
Qed.

Lemma iter_xO_pow (m k : positive) :
  Z.pos (Pos.iter xO m k) = Z.pos m * 2 ^ Z.pos k.
Proof.
  induction k as [|k IH] using Pos.peano_ind.
  - cbn. lia.
  - rewrite Pos.iter_succ. change (Z.pos (Pos.iter xO m k)~0) with (2 * Z.pos (Pos.iter xO m k)).
    rewrite IH, Pos2Z.inj_succ, Z.pow_succ_r by lia. ring.
Qed.

(** A positive integer below 2^53 is a number of the format, with its exact
    value. *)
Lemma binary_normalize_integer (z : Z) :
  0 < z < 2 ^ 53 ->
  exists m e,
    binary_normalize prec emax z 0 false = S754_finite false m e /\
    e <= 0 /\ Z.pos m = z * 2 ^ (- e) /\
    valid_binary (S754_finite false m e) = true.
Proof.
  intros Hz. destruct z as [|p|p]; try lia.
  pose proof (Zdigits2_bounds (Z.pos p) (proj1 Hz)) as Hd.
  assert (Hd53 : Zdigits2 (Z.pos p) <= 53) by (apply Zdigits2_le; lia).
  assert (Hd1 : 0 < Zdigits2 (Z.pos p)) by (cbn; lia).
  cbn [binary_normalize Zdigits2] in *. unfold binary_round.
  rewrite fexp_eq. rewrite Z.add_0_r.
  set (d := Z.pos (digits2_pos p)) in *.
  replace (Z.max (d - 53) (-1074)) with (d - 53) by lia.
  assert (Hal : exists mz, shl_align p 0 (d - 53) = (mz, d - 53) /\
                           Z.pos mz = Z.pos p * 2 ^ (53 - d)).
  { unfold shl_align. rewrite Z.sub_0_r.
    destruct (d - 53) as [|k|k] eqn:Ek; try lia.
    - exists p. split; [reflexivity|]. replace (53 - d) with 0 by lia. lia.
    - exists (Pos.iter xO p k). split; [reflexivity|].
      rewrite iter_xO_pow. f_equal. f_equal. lia. }
  destruct Hal as (mz & -> & Hmz).
  assert (Hdz : Zdigits2 (Z.pos mz) = 53).
  { apply Zdigits2_unique; [|lia]. rewrite Hmz.
    assert (H53 : 2 ^ 53 = 2 ^ d * 2 ^ (53 - d)) by (rewrite <- pow2_split by lia; f_equal; lia).
    assert (H52 : 2 ^ (53 - 1) = 2 ^ (d - 1) * 2 ^ (53 - d)) by (rewrite <- pow2_split by lia; f_equal; lia).
    assert (0 < 2 ^ (53 - d)) by (apply Z.pow_pos_nonneg; lia).
    rewrite H52. rewrite H53. nia. }
  exists mz, (d - 53).
  assert (Hshr : forall l, shr_fexp prec emax (Z.pos mz) (d - 53) l
                           = (shr_record_of_loc (Z.pos mz) l, d - 53)).
  { intros l. unfold shr_fexp. rewrite Hdz, fexp_eq.
    replace (Z.max (53 + (d - 53) - 53) (-1074) - (d - 53)) with 0 by lia.
    reflexivity. }
  split; [|split; [lia|split]].
  - unfold binary_round_aux. rewrite Hshr. cbn [shr_record_of_loc shr_m loc_of_shr_record round_nearest_even].
    rewrite Hshr. cbn [shr_record_of_loc shr_m].
    assert (Hle : (d - 53 <=? emax - prec) = true) by (apply Z.leb_le; change (emax - prec) with 971; lia).
    now rewrite Hle.
  - rewrite Hmz. f_equal. f_equal. lia.
  - cbn [valid_binary]. unfold bounded, canonical_mantissa.
    change (Z.pos (digits2_pos mz)) with (Zdigits2 (Z.pos mz)).
    rewrite Hdz, fexp_eq. apply andb_true_iff. split.
    + apply Z.eqb_eq. lia.
    + apply Z.leb_le. change (emax - prec) with 971. lia.
Qed.

Lemma Prim2SF_Number_of_Z (z : Z) :
  0 < z < 2 ^ 53 ->
  exists m e,
    Prim2SF (Number_of_Z z) = S754_finite false m e /\
    e <= 0 /\ Z.pos m = z * 2 ^ (- e).
Proof.
  intros Hz. destruct (binary_normalize_integer z Hz) as (m & e & Hn & He & Hm & Hv).
  exists m, e. unfold Number_of_Z. rewrite Hn.
  rewrite Prim2SF_SF2Prim by exact Hv. auto.
Qed.

(** ** Division, step by step *)

Lemma new_location_inexact (nb r : Z) :
  loc_inexact (new_location nb r) = negb (r =? 0).
Proof.
  unfold new_location, new_location_even, new_location_odd.
  destruct (Z.even nb); destruct (r =? 0); reflexivity.
Qed.

Lemma shift_left_pow (m s : Z) :
  0 <= s ->
  match s with Z.pos _ => Z.shiftl m s | 0 => m | Z.neg _ => 0 end = m * 2 ^ s.
Proof.
  intros Hs. destruct s as [|k|k]; try lia.
  now rewrite Z.shiftl_mul_pow2 by lia.
Qed.

Lemma Zdigits2_scaled (a k : Z) :
  0 < a -> 0 <= k -> Zdigits2 (a * 2 ^ k) = Zdigits2 a + k.
Proof.
  intros Ha Hk. pose proof (Zdigits2_bounds a Ha) as Hd.
  assert (Hd1 : 0 < Zdigits2 a) by (destruct a; cbn in *; lia).
  assert (Hp : 0 < 2 ^ k) by (apply Z.pow_pos_nonneg; lia).
  apply Zdigits2_unique; [|lia].
  replace (Zdigits2 a + k - 1) with (Zdigits2 a - 1 + k) by lia.
  rewrite !pow2_split by lia. nia.
Qed.

(** ** A quotient of integers between two numbers of the format *)

Lemma SFdiv_between (m1 m2 : positive) (e1 e2 a t Klo Khi E : Z) :
  e1 <= 0 -> e2 <= 0 ->
  Z.pos m1 = a * 2 ^ (- e1) -> Z.pos m2 = t * 2 ^ (- e2) ->
  0 < a -> 0 < t ->
  -1074 <= E <= 0 -> Zdigits2 a - Zdigits2 t - 53 <= E ->
  0 < Klo -> 0 < Khi < 2 ^ 53 ->
  Klo * t <= a * 2 ^ (- E) <= Khi * t ->
  between (SFdiv prec emax (S754_finite false m1 e1) (S754_finite false m2 e2))
          Klo Khi E.
Proof.
  intros He1 He2 Hm1 Hm2 Ha Ht HE Hdig HKlo HKhi Hb.
  cbn [SFdiv xorb]. unfold SFdiv_core_binary.
  assert (Hd1 : Zdigits2 (Z.pos m1) = Zdigits2 a - e1).
  { rewrite Hm1, Zdigits2_scaled by lia. lia. }
  assert (Hd2 : Zdigits2 (Z.pos m2) = Zdigits2 t - e2).
  { rewrite Hm2, Zdigits2_scaled by lia. lia. }
  rewrite Hd1, Hd2, fexp_eq.
  set (e' := Z.min (Z.max (Zdigits2 a - e1 + e1 - (Zdigits2 t - e2 + e2) - 53) (-1074))
                   (e1 - e2)).
  assert (He' : e' <= E) by lia.
  set (s := e1 - e2 - e').
  assert (Hs : 0 <= s) by lia.
  set (m' := match s with Z.pos _ => Z.shiftl (Z.pos m1) s | 0 => Z.pos m1 | Z.neg _ => 0 end).
  assert (Hm' : m' = Z.pos m1 * 2 ^ s) by (apply shift_left_pow; exact Hs).
  pose proof (Z.div_eucl_eq m' (Z.pos m2) ltac:(lia)) as Heq.
  pose proof (Z.mod_pos_bound m' (Z.pos m2) (Pos2Z.is_pos _)) as Hr.
  unfold Z.modulo in Hr.
  destruct (Z.div_eucl m' (Z.pos m2)) as [q r].
  set (P := 2 ^ (- e2)). set (Q := 2 ^ (E - e')). set (A := a * 2 ^ (- E)).
  assert (HP : 0 < P) by (apply Z.pow_pos_nonneg; lia).
  assert (HQ : 0 < Q) by (apply Z.pow_pos_nonneg; lia).
  assert (Hval : m' = A * Q * P).
  { rewrite Hm', Hm1. unfold A, Q, P.
    replace (a * 2 ^ (- e1) * 2 ^ s) with (a * (2 ^ (- e1) * 2 ^ s)) by ring.
    replace (a * 2 ^ (- E) * 2 ^ (E - e') * 2 ^ (- e2))
      with (a * (2 ^ (- E) * 2 ^ (E - e') * 2 ^ (- e2))) by ring.
    f_equal. rewrite <- !pow2_split by lia. f_equal. lia. }
  rewrite Hm2 in Heq, Hr. fold P in Heq, Hr. fold A in Hb.
  assert (HtP : 0 < t * P) by (apply Z.mul_pos_pos; lia).
  assert (Hq : 0 <= q) by nia.
  apply binary_round_aux_between; try lia; fold Q.
  - (* the lower bound *)
    assert (H1 : Klo * Q * (t * P) <= A * Q * P).
    { replace (Klo * Q * (t * P)) with (Klo * t * (Q * P)) by ring.
      replace (A * Q * P) with (A * (Q * P)) by ring.
      apply Z.mul_le_mono_nonneg_r; [|lia]. apply Z.lt_le_incl, Z.mul_pos_pos; lia. }
    assert (H2 : Klo * Q * (t * P) < (q + 1) * (t * P)) by lia.
    apply Z.mul_lt_mono_pos_r in H2; lia.
  - (* the upper bound *)
    rewrite new_location_inexact.
    assert (H1 : A * Q * P <= Khi * Q * (t * P)).
    { replace (Khi * Q * (t * P)) with (Khi * t * (Q * P)) by ring.
      replace (A * Q * P) with (A * (Q * P)) by ring.
      apply Z.mul_le_mono_nonneg_r; [|lia]. apply Z.lt_le_incl, Z.mul_pos_pos; lia. }
    destruct (r =? 0) eqn:Er; cbn [negb].
    + apply Z.eqb_eq in Er.
      assert (H2 : q * (t * P) <= Khi * Q * (t * P)) by lia.
      apply Z.mul_le_mono_pos_r in H2; lia.
    + apply Z.eqb_neq in Er.
      assert (H2 : q * (t * P) < Khi * Q * (t * P)) by lia.
      apply Z.mul_lt_mono_pos_r in H2; lia.
Qed.

(** ** Times one hundred, and rounding to an integer *)

Lemma Prim2SF_100 : Prim2SF 100 = S754_finite false 7036874417766400 (-46).
Proof. reflexivity. Qed.

Lemma Number_of_Z_0 : Number_of_Z 0 = zero.
Proof. reflexivity. Qed.

Lemma SFmul_100_between (x : spec_float) (Klo Khi Klo' Khi' E : Z) :
  between x Klo Khi E -> -1081 <= E <= 964 ->
  0 < Klo' -> 0 < Khi' < 2 ^ 53 ->
  128 * Klo' <= 100 * Klo -> 100 * Khi <= 128 * Khi' ->
  between (SFmul prec emax x (Prim2SF 100)) Klo' Khi' (E + 7).
Proof.
  rewrite Prim2SF_100.
  destruct x as [[]|[]| |[] m e]; cbn [between]; try contradiction.
  intros (He & Hlo & Hhi) HE HKlo HKhi Hl Hh. cbn [SFmul xorb].
  assert (HQ : 0 < 2 ^ (E - e)) by (apply Z.pow_pos_nonneg; lia).
  assert (Hp : 2 ^ (E + 7 - (e + -46)) = 9007199254740992 * 2 ^ (E - e)).
  { replace (E + 7 - (e + -46)) with (53 + (E - e)) by lia.
    now rewrite pow2_split by lia. }
  apply binary_round_aux_between; try lia;
    rewrite Hp, Pos2Z.inj_mul; cbn [loc_inexact]; nia.
Qed.

(** [Math.round] of a number between two numbers of the format. *)
Lemma Math_round_between (y : float) (Klo Khi E : Z) :
  between (Prim2SF y) Klo Khi E -> E < 0 ->
  exists n, 0 <= n /\ Math_round y = Number_of_Z n /\
    (forall j, 2 * Khi < (2 * j + 1) * 2 ^ (- E) -> n <= j) /\
    (forall j, (2 * j - 1) * 2 ^ (- E) <= 2 * Klo -> j <= n).
Proof.
  intros Hb HE. unfold Math_round.
  destruct (Prim2SF y) as [[]|[]| |[] m e] eqn:Ey; cbn [between] in Hb;
    try contradiction.
  destruct Hb as (He & Hlo & Hhi).
  destruct (0 <=? e) eqn:E0; [apply Z.leb_le in E0; lia|].
  cbn [cond_Zopp].
  set (h := 2 ^ (- e - 1)).
  assert (Hh : 0 < h) by (apply Z.pow_pos_nonneg; lia).
  set (Q := 2 ^ (E - e)) in *.
  assert (HQ : 0 < Q) by (apply Z.pow_pos_nonneg; lia).
  assert (He1 : 2 ^ (- e) = 2 * h).
  { unfold h. replace (- e) with (1 + (- e - 1)) at 1 by lia.
    now rewrite pow2_split by lia. }
  assert (HD : 2 * h = 2 ^ (- E) * Q).
  { rewrite <- He1. unfold Q. rewrite <- pow2_split by lia. f_equal. lia. }
  set (n := (Z.pos m + h) / (2 * h)).
  pose proof (Z.div_mod (Z.pos m + h) (2 * h) ltac:(lia)) as Hdm.
  pose proof (Z.mod_pos_bound (Z.pos m + h) (2 * h) ltac:(lia)) as Hmb.
  fold n in Hdm.
  assert (Hn : 0 <= n) by (apply Z.div_pos; lia).
  exists n. split; [exact Hn|]. split; [|split].
  - destruct (n =? 0) eqn:En; [|reflexivity].
    apply Z.eqb_eq in En. rewrite En. reflexivity.
  - intros j Hj.
    assert (H1 : 2 * Khi * Q < (2 * j + 1) * 2 ^ (- E) * Q)
      by (apply Z.mul_lt_mono_pos_r; lia).
    assert (H2 : 2 * Z.pos m < (2 * j + 1) * (2 * h)) by (rewrite HD; lia).
    assert (H3 : n * (2 * h) < (j + 1) * (2 * h)) by lia.
    apply Z.mul_lt_mono_pos_r in H3; lia.
  - intros j Hj.
    assert (H1 : (2 * j - 1) * 2 ^ (- E) * Q <= 2 * Klo * Q)
      by (apply Z.mul_le_mono_nonneg_r; lia).
    assert (H2 : (2 * j - 1) * (2 * h) <= 2 * Z.pos m) by (rewrite HD; lia).
    assert (H3 : j * (2 * h) < (n + 1) * (2 * h)) by lia.
    apply Z.mul_lt_mono_pos_r in H3; lia.
Qed.

(** ** The rate, exactly *)

Lemma ceil_div (x t : Z) : 0 <= x -> 0 < t ->
  x <= (x + t - 1) / t * t /\ (x + t - 1) / t * t <= x + t - 1.
Proof.
  intros Hx Ht.
  pose proof (Z.div_mod (x + t - 1) t ltac:(lia)) as Hdm.
  pose proof (Z.mod_pos_bound (x + t - 1) t Ht) as Hmb.
  lia.
Qed.

Lemma floor_div (x t : Z) : 0 <= x -> 0 < t ->
  x / t * t <= x /\ x < x / t * t + t.
Proof.
  intros Hx Ht.
  pose proof (Z.div_mod x t ltac:(lia)) as Hdm.
  pose proof (Z.mod_pos_bound x t Ht) as Hmb.
  lia.
Qed.

Lemma Zdigits2_mono (a t : Z) : 0 < a -> a <= t -> Zdigits2 a <= Zdigits2 t.
Proof.
  intros Ha Hat. pose proof (Zdigits2_bounds t ltac:(lia)) as Hd.
  apply Zdigits2_le; [lia| |lia]. apply Zdigits2_nonneg. lia.
Qed.

(** The rate of [a] accepted offers among [t], one at least: it is the
    percentage rounded half up, or, when the percentage lies exactly halfway
    between two integers, possibly the integer below. *)
Lemma rate_exact (a t : Z) :
  0 < a <= t -> t < 2 ^ 32 ->
  exists n,
    Math_round (Number_of_Z a / Number_of_Z t * 100)%float = Number_of_Z n /\
    0 <= n /\
    (n = round_half_up (100 * a) t \/
     (halfway (100 * a) t /\ n = round_half_up (100 * a) t - 1)).
Proof.
  intros Hat Ht.
  change (2 ^ 32) with 4294967296 in Ht.
  destruct (Prim2SF_Number_of_Z a) as (m1 & e1 & E1 & He1 & Hm1);
    [change (2 ^ 53) with 9007199254740992; lia|].
  destruct (Prim2SF_Number_of_Z t) as (m2 & e2 & E2 & He2 & Hm2);
    [change (2 ^ 53) with 9007199254740992; lia|].
  set (X := a * 4503599627370496).
  set (K1lo := X / t). set (K1hi := (X + t - 1) / t).
  destruct (floor_div X t ltac:(unfold X; lia) ltac:(lia)) as [Hf1 Hf2].
  destruct (ceil_div X t ltac:(unfold X; lia) ltac:(lia)) as [Hc1 Hc2].
  fold K1lo in Hf1, Hf2. fold K1hi in Hc1, Hc2.
  assert (HK1lo : 1048576 <= K1lo).
  { unfold K1lo. apply Z.div_le_lower_bound; [lia|]. unfold X. lia. }
  assert (HK1hi : K1hi < 9007199254740992).
  { unfold K1hi. apply Z.div_lt_upper_bound; [lia|]. unfold X. lia. }
  assert (HK1 : K1lo <= K1hi).
  { unfold K1lo, K1hi. apply Z.div_le_mono; lia. }
  set (K2lo := 100 * K1lo / 128). set (K2hi := (100 * K1hi + 127) / 128).
  destruct (floor_div (100 * K1lo) 128 ltac:(lia) ltac:(lia)) as [Hg1 Hg2].
  destruct (ceil_div (100 * K1hi) 128 ltac:(lia) ltac:(lia)) as [Hh1 Hh2].
  fold K2lo in Hg1, Hg2.
  replace (100 * K1hi + 128 - 1) with (100 * K1hi + 127) in Hh1, Hh2 by lia.
  fold K2hi in Hh1, Hh2.
  assert (Hdiv : between (Prim2SF (Number_of_Z a / Number_of_Z t)%float) K1lo K1hi (-52)).
  { rewrite div_spec, E1, E2.
    apply (@SFdiv_between m1 m2 e1 e2 a t); try lia.
    pose proof (Zdigits2_mono a t ltac:(lia) ltac:(lia)). lia. }
  assert (Hmul : between (Prim2SF (Number_of_Z a / Number_of_Z t * 100)%float)
                         K2lo K2hi (-45)).
  { rewrite mul_spec. change (-45) with (-52 + 7).
    apply SFmul_100_between with (Klo := K1lo) (Khi := K1hi); try lia.
    exact Hdiv. }
  destruct (Math_round_between _ _ _ _ Hmul ltac:(lia)) as (n & Hn & Hr & Hup & Hdown).
  change (2 ^ (- -45)) with 35184372088832 in Hup, Hdown.
  exists n. split; [exact Hr|]. split; [exact Hn|].
  unfold round_half_up, halfway.
  set (k := (2 * (100 * a) + t) / (2 * t)).
  pose proof (Z.div_mod (2 * (100 * a) + t) (2 * t) ltac:(lia)) as Hdm.
  pose proof (Z.mod_pos_bound (2 * (100 * a) + t) (2 * t) ltac:(lia)) as Hmb.
  fold k in Hdm.
  set (r := (2 * (100 * a) + t) mod (2 * t)) in *.
  assert (Hk : 0 <= k) by (apply Z.div_pos; lia).
  assert (Hle : n <= k).
  { apply Hup.
    assert (H256 : 2 * t * (K2hi * 128) <= 2 * t * (100 * K1hi + 127))
      by (apply Z.mul_le_mono_nonneg_l; lia).
    assert (Hgoal : t * (2 * K2hi) < t * ((2 * k + 1) * 35184372088832)) by lia.
    apply Z.mul_lt_mono_pos_l in Hgoal; lia. }
  assert (Hge : forall j, 0 <= j -> (2 * j - 1) * t < 200 * a -> j <= n).
  { intros j Hj0 Hj. apply Hdown.
    assert (H256 : 2 * t * (100 * K1lo) < 2 * t * (K2lo * 128 + 128))
      by (apply Z.mul_lt_mono_pos_l; lia).
    assert (Hgoal : t * ((2 * j - 1) * 35184372088832) <= t * (2 * K2lo)) by lia.
    apply Z.mul_le_mono_pos_l in Hgoal; lia. }
  destruct (Z.eq_dec r 0) as [Hr0 | Hr0].
  - destruct (Z.eq_dec n k) as [|Hne]; [now left|]. right. split; [exact Hr0|].
    destruct (Z.eq_dec k 0) as [Hk0|Hk0]; [lia|].
    assert (k - 1 <= n); [|lia]. apply Hge; lia.
  - left. assert (k <= n); [|lia]. apply Hge; lia.
Qed.

(** ** Sums of integers are exact *)

Lemma shr_fexp_canonical (c : positive) (e : Z) (l : location) :
  Zdigits2 (Z.pos c) = 53 -> -1074 <= e ->
  shr_fexp prec emax (Z.pos c) e l = (shr_record_of_loc (Z.pos c) l, e).
Proof.
  intros Hd He. unfold shr_fexp. rewrite Hd, fexp_eq.
  replace (Z.max (53 + e - 53) (-1074) - e) with 0 by lia.
  reflexivity.
Qed.

Lemma round_finish_canonical (c : positive) (e : Z) :
  Zdigits2 (Z.pos c) = 53 -> -1074 <= e <= 971 ->
  (let '(mrs, e') := shr_fexp prec emax (Z.pos c) e loc_Exact in
   match shr_m mrs with
   | 0 => S754_zero false
   | Z.pos m => if e' <=? emax - prec then S754_finite false m e'
                else S754_infinity false
   | Z.neg _ => S754_nan
   end) = S754_finite false c e.
Proof.
  intros Hd He. rewrite shr_fexp_canonical by lia.
  cbn [shr_record_of_loc shr_m].
  assert (Hle : (e <=? emax - prec) = true)
    by (apply Z.leb_le; change (emax - prec) with 971; lia).
  now rewrite Hle.
Qed.

Lemma binary_round_aux_canonical (c : positive) (e : Z) :
  Zdigits2 (Z.pos c) = 53 -> -1074 <= e <= 971 ->
  binary_round_aux prec emax false (Z.pos c) e loc_Exact = S754_finite false c e.
Proof.
  intros Hd He. unfold binary_round_aux. rewrite shr_fexp_canonical by lia.
  cbn [shr_record_of_loc shr_m loc_of_shr_record round_nearest_even].
  now apply round_finish_canonical.
Qed.

(** Rounding the integer [z], given as [M * 2 ^ ez], gives [z] in its one
    normal form. *)
Lemma binary_round_exact (M : positive) (ez z : Z) :
  0 < z < 2 ^ 53 -> ez <= 0 -> Z.pos M = z * 2 ^ (- ez) ->
  exists m,
    binary_round prec emax false M ez = S754_finite false m (Zdigits2 z - 53) /\
    Z.pos m = z * 2 ^ (53 - Zdigits2 z).
Proof.
  intros Hz Hez HM.
  pose proof (Zdigits2_bounds z (proj1 Hz)) as Hd.
  assert (Hd53 : Zdigits2 z <= 53) by (apply Zdigits2_le; lia).
  assert (Hd1 : 0 < Zdigits2 z) by (destruct z; cbn in *; lia).
  set (d := Zdigits2 z) in *.
  assert (HdM : Zdigits2 (Z.pos M) = d - ez).
  { rewrite HM, Zdigits2_scaled by lia. fold d. lia. }
  assert (Hfull : forall c : positive, Z.pos c = z * 2 ^ (53 - d) ->
                    Zdigits2 (Z.pos c) = 53).
  { intros c Hc. rewrite Hc, Zdigits2_scaled by lia. fold d. lia. }
  unfold binary_round.
  change (Z.pos (digits2_pos M)) with (Zdigits2 (Z.pos M)).
  rewrite HdM, fexp_eq.
  replace (Z.max (d - ez + ez - 53) (-1074)) with (d - 53) by lia.
  unfold shl_align.
  destruct (d - 53 - ez) as [|k|k] eqn:Ek.
  - (* already aligned *)
    assert (Hez' : ez = d - 53) by lia.
    assert (HMc : Z.pos M = z * 2 ^ (53 - d)).
    { rewrite HM. f_equal. f_equal. lia. }
    exists M. split; [|exact HMc]. rewrite Hez'.
    apply binary_round_aux_canonical; [now apply Hfull | lia].
  - (* more digits than the format holds: shifted right, exactly *)
    assert (Hsplit : 2 ^ (- ez) = 2 ^ (53 - d) * 2 ^ Z.pos k).
    { rewrite <- pow2_split by lia. f_equal. lia. }
    assert (Hpk : 0 < 2 ^ Z.pos k) by (apply Z.pow_pos_nonneg; lia).
    assert (Hpd : 0 < 2 ^ (53 - d)) by (apply Z.pow_pos_nonneg; lia).
    assert (Hc : 0 < z * 2 ^ (53 - d)) by (apply Z.mul_pos_pos; lia).
    destruct (z * 2 ^ (53 - d)) as [|c|c] eqn:Ec; try lia.
    exists c. split; [|reflexivity].
    assert (Hdc : Zdigits2 (Z.pos c) = 53) by (now apply Hfull).
    assert (HMk : Z.pos M = Z.pos c * 2 ^ Z.pos k).
    { rewrite HM, Hsplit. lia. }
    unfold binary_round_aux.
    assert (Hshr : shr_fexp prec emax (Z.pos M) ez loc_Exact
                   = ({| shr_m := Z.pos c; shr_r := false; shr_s := false |}, d - 53)).
    { unfold shr_fexp. rewrite HdM, fexp_eq.
      replace (Z.max (d - ez + ez - 53) (-1074) - ez) with (Z.pos k) by lia.
      unfold shr.
      pose proof (@iter_pos_shifted (Z.pos M) false k ltac:(lia) 0 _
                    (Z.le_refl 0) (shifted_start (Z.pos M) loc_Exact)) as Hsh.
      set (mrs := iter_pos shr_1 k (shr_record_of_loc (Z.pos M) loc_Exact)) in *.
      clearbody mrs. destruct Hsh as [Hs Hi].
      rewrite Z.add_0_l in Hs, Hi.
      rewrite HMk, Z.div_mul in Hs by lia.
      rewrite HMk, Z.mod_mul in Hi by lia.
      destruct mrs as [sm sr ss].
      cbn [shr_m] in Hs. unfold inexact in Hi. cbn [shr_r shr_s] in Hi.
      f_equal; [|lia].
      destruct sr, ss; cbn in Hi;
        try (exfalso; destruct (Hi eq_refl) as [H|H]; [discriminate | now apply H]).
      now rewrite Hs. }
    rewrite Hshr. cbn [fst snd shr_m loc_of_shr_record round_nearest_even].
    apply round_finish_canonical; [exact Hdc | lia].
  - (* fewer digits: shifted left *)
    assert (Hc : Z.pos (Pos.iter xO M k) = z * 2 ^ (53 - d)).
    { rewrite iter_xO_pow, HM.
      replace (53 - d) with (- ez + Z.pos k) by lia.
      rewrite pow2_split by lia. ring. }
    exists (Pos.iter xO M k). split; [|exact Hc].
    apply binary_round_aux_canonical; [now apply Hfull | lia].
Qed.

Lemma shl_align_value (m : positive) (e ez : Z) :
  ez <= e -> Z.pos (fst (shl_align m e ez)) = Z.pos m * 2 ^ (e - ez).
Proof.
  intros He. unfold shl_align.
  destruct (ez - e) as [|k|k] eqn:Ek; cbn [fst].
  - replace (e - ez) with 0 by lia. lia.
  - lia.
  - rewrite iter_xO_pow. f_equal. f_equal. lia.
Qed.

(** The sum of two non-negative integers is exact while it stays below
    2^53. *)
Lemma Number_add_exact (a b : Z) :
  0 <= a -> 0 <= b -> a + b < 2 ^ 53 ->
  (Number_of_Z a + Number_of_Z b)%float = Number_of_Z (a + b).
Proof.
  intros Ha Hb Hab. apply Prim2SF_inj. rewrite add_spec.
  destruct (Z.eq_dec a 0) as [->|Ha0].
  { change (Prim2SF (Number_of_Z 0)) with (S754_zero false). rewrite Z.add_0_l.
    unfold SF64add.
    destruct (Z.eq_dec b 0) as [->|Hb0]; [reflexivity|].
    destruct (Prim2SF_Number_of_Z b) as (m & e & -> & _); [lia|]. reflexivity. }
  destruct (Prim2SF_Number_of_Z a) as (m1 & e1 & E1 & He1 & Hm1); [lia|].
  destruct (Z.eq_dec b 0) as [->|Hb0].
  { change (Prim2SF (Number_of_Z 0)) with (S754_zero false). rewrite Z.add_0_r.
    rewrite E1. reflexivity. }
  destruct (Prim2SF_Number_of_Z b) as (m2 & e2 & E2 & He2 & Hm2); [lia|].
  rewrite E1, E2. unfold SF64add. cbn [SFadd cond_Zopp].
  set (ez := Z.min e1 e2).
  rewrite !shl_align_value by lia.
  assert (Hsum : Z.pos m1 * 2 ^ (e1 - ez) + Z.pos m2 * 2 ^ (e2 - ez)
                 = (a + b) * 2 ^ (- ez)).
  { rewrite Hm1, Hm2.
    replace (- ez) with (- e1 + (e1 - ez)) at 1 by lia.
    replace (- ez) with (- e2 + (e2 - ez)) at 1 by lia.
    rewrite !pow2_split by lia.
    replace (2 ^ (- ez)) with (2 ^ (- e1) * 2 ^ (e1 - ez)) at 1.
    2:{ rewrite <- pow2_split by lia. f_equal. lia. }
    assert (H2 : 2 ^ (- e2) * 2 ^ (e2 - ez) = 2 ^ (- e1) * 2 ^ (e1 - ez)).
    { rewrite <- !pow2_split by lia. f_equal. lia. }
    nia. }
  rewrite Hsum.
  assert (Hpos : 0 < (a + b) * 2 ^ (- ez)).
  { apply Z.mul_pos_pos; [lia|]. apply Z.pow_pos_nonneg; lia. }
  destruct ((a + b) * 2 ^ (- ez)) as [|M|M] eqn:EM; try lia.
  cbn [binary_normalize].
  destruct (binary_round_exact M ez (a + b)) as (m & Hr & Hm); [lia|lia|lia|].
  rewrite Hr.
  assert (Hz : Prim2SF (Number_of_Z (a + b))
               = binary_normalize prec emax (a + b) 0 false).
  { destruct (binary_normalize_integer (a + b)) as (m' & e' & Hn & _ & _ & Hv); [lia|].
    unfold Number_of_Z. rewrite Hn. now apply Prim2SF_SF2Prim. }
  rewrite Hz.
  destruct (a + b) as [|p|p] eqn:Ep; try lia.
  cbn [binary_normalize].
  destruct (binary_round_exact p 0 (Z.pos p)) as (m' & Hr' & Hm'); [lia|lia|cbn; lia|].
  rewrite Hr'. f_equal. lia.
Qed.

Lemma round_half_up_range (p q : Z) :
  0 <= p <= 100 * q -> 0 < q -> 0 <= round_half_up p q <= 100.
Proof.
  intros Hp Hq. unfold round_half_up. split.
  - apply Z.div_pos; lia.
  - assert ((2 * p + q) / (2 * q) < 101); [|lia].
    apply Z.div_lt_upper_bound; lia.
Qed.

(** The rate the pages compute for [a] accepted offers among [t]. *)
Lemma rate_rounds (a t : nat) :
  (a <= t)%nat -> (0 < t)%nat -> Z.of_nat t < 2 ^ 32 ->
  exists n,
    Math_round (Number_of_nat a / Number_of_nat t * 100)%float = Number_of_Z n /\
    0 <= n <= 100 /\
    (n = rate_as_stated a t \/
     (halfway (100 * Z.of_nat a) (Z.of_nat t) /\ n = rate_as_stated a t - 1)).
Proof.
  intros Hat Ht Hbig.
  assert (Hst : rate_as_stated a t = round_half_up (100 * Z.of_nat a) (Z.of_nat t)).
  { unfold rate_as_stated. destruct t; [lia | reflexivity]. }
  pose proof (round_half_up_range (100 * Z.of_nat a) (Z.of_nat t)
                ltac:(lia) ltac:(lia)) as Hrange.
  rewrite Hst. unfold Number_of_nat.
  destruct a as [|a].
  - exists 0. split; [|split; [lia|left]].
    + destruct (Prim2SF_Number_of_Z (Z.of_nat t)) as (m & e & E2 & _);
        [change (2 ^ 32) with 4294967296 in Hbig;
         change (2 ^ 53) with 9007199254740992; lia|].
      assert (Hz : (Number_of_Z (Z.of_nat 0) / Number_of_Z (Z.of_nat t))%float
                   = 0%float).
      { apply Prim2SF_inj. rewrite div_spec, E2. reflexivity. }
      rewrite Hz. reflexivity.
    + unfold round_half_up. change (2 * (100 * Z.of_nat 0)) with 0.
      rewrite Z.add_0_l. symmetry. apply Z.div_small. lia.
  - destruct (rate_exact (Z.of_nat (S a)) (Z.of_nat t)) as (n & Hr & Hn & Hcase);
      [lia | exact Hbig |].
    exists n. split; [exact Hr|]. split; [|exact Hcase].
    destruct Hcase as [-> | [_ ->]]; lia.
Qed.

End Binary64.

(* ================================================================== *)
(** * Decimal digits *)
(* ================================================================== *)

Lemma decimal_fuel_enough (k1 : nat) :
  forall (k2 : nat) (n : N),
    (n < 2 ^ N.of_nat k1)%N -> (n < 2 ^ N.of_nat k2)%N ->
    decimal_fuel (S k1) n = decimal_fuel (S k2) n.
Proof.
  induction k1 as [|k1 IH]; intros k2 n H1 H2.
  - assert (n = 0%N) by (cbn in H1; lia). subst. reflexivity.
  - cbn [decimal_fuel]. destruct (n <? 10)%N eqn:E; [reflexivity|].
    apply N.ltb_ge in E.
    destruct k2 as [|k2].
    { cbn in H2. lia. }
    f_equal.
    rewrite Nat2N.inj_succ, N.pow_succ_r' in H1, H2.
    apply IH.
    + apply N.Div0.div_lt_upper_bound. lia.
    + apply N.Div0.div_lt_upper_bound. lia.
Qed.

Lemma decimal_unfold (n : N) :
  decimal n =
  if (n <? 10)%N then [(48 + n)%N]
  else decimal (n / 10) ++ [(48 + n mod 10)%N].
Proof.
  unfold decimal at 1. cbn [decimal_fuel].
  destruct (n <? 10)%N eqn:E; [reflexivity|].
  apply N.ltb_ge in E. f_equal.
  pose proof (N.size_gt n) as Hn.
  destruct (N.to_nat (N.size n)) as [|k] eqn:Ek.
  { assert (N.size n = 0%N) by lia. rewrite H in Hn. cbn in Hn. lia. }
  unfold decimal. apply decimal_fuel_enough.
  - assert (Hs : N.size n = N.succ (N.of_nat k)) by lia.
    rewrite Hs, N.pow_succ_r' in Hn.
    apply N.Div0.div_lt_upper_bound. lia.
  - rewrite N2Nat.id. apply N.size_gt.
Qed.

Lemma decimal_nonempty (n : N) : (1 <= List.length (decimal n))%nat.
Proof.
  rewrite decimal_unfold. destruct (n <? 10)%N; [cbn; lia|].
  rewrite length_app. cbn. lia.
Qed.

Lemma fixed_digits_1 (n : N) :
  fixed_digits 1 n = decimal (n / 10) ++ js "." ++ [(48 + n mod 10)%N].
Proof.
  unfold fixed_digits. cbn [Nat.eqb].
  rewrite (decimal_unfold n).
  destruct (n <? 10)%N eqn:E.
  - apply N.ltb_lt in E. rewrite N.div_small, N.mod_small by exact E.
    reflexivity.
  - pose proof (decimal_nonempty (n / 10)) as Hl.
    rewrite length_app. cbn [List.length].
    destruct (List.length (decimal (n / 10)) + 1 <=? 1)%nat eqn:El.
    { apply Nat.leb_le in El. lia. }
    rewrite length_app. cbn [List.length].
    replace (List.length (decimal (n / 10)) + 1 - 1)%nat
      with (List.length (decimal (n / 10)) + 0)%nat by lia.
    rewrite firstn_app_2, skipn_app.
    cbn [firstn]. rewrite app_nil_r.
    rewrite skipn_all2 by lia.
    replace (List.length (decimal (n / 10)) + 0 - List.length (decimal (n / 10)))%nat
      with 0%nat by lia.
    reflexivity.
Qed.

(* ================================================================== *)
(** * toFixed *)
(* ================================================================== *)

Section ToFixed.
Context {rt : Runtime}.

Lemma toFixed_1_nearest (x : float) (s : bool) (m : positive) (e : Z) :
  Prim2SF x = S754_finite s m e ->
  (integer_part (Z.pos m) e < 10 ^ 21)%Z ->
  exists n : Z,
    (0 <= n)%Z /\ nearest_tenths (Z.pos m) e n /\
    toFixed 1 x =
      (if s then js "-" else []) ++
      decimal (Z.to_N n / 10) ++ js "." ++ [(48 + Z.to_N n mod 10)%N].
Proof.
  intros Hx Hlt. unfold toFixed. rewrite Hx.
  destruct (10 ^ 21 <=? integer_part (Z.pos m) e)%Z eqn:E.
  { apply Z.leb_le in E. lia. }
  clear E Hlt. unfold nearest_tenths.
  change (10 ^ Z.of_nat 1)%Z with 10%Z.
  destruct (0 <=? e)%Z eqn:E0.
  - apply Z.leb_le in E0.
    exists (Z.pos m * 10 * 2 ^ e)%Z. split; [|split].
    + assert (0 < 2 ^ e)%Z by (apply Z.pow_pos_nonneg; lia). nia.
    + ring.
    + f_equal. apply fixed_digits_1.
  - apply Z.leb_gt in E0.
    set (D := (2 ^ (- e))%Z).
    assert (HD : (0 < D)%Z) by (apply Z.pow_pos_nonneg; lia).
    exists ((2 * (Z.pos m * 10) + D) / (2 * D))%Z. split; [|split].
    + apply Z.div_pos; lia.
    + pose proof (Z.div_mod (2 * (Z.pos m * 10) + D) (2 * D) ltac:(lia)) as Hdm.
      pose proof (Z.mod_pos_bound (2 * (Z.pos m * 10) + D) (2 * D) ltac:(lia)) as Hmb.
      nia.
    + f_equal. apply fixed_digits_1.
Qed.

Lemma toFixed_1_zero (x : float) (s : bool) :
  Prim2SF x = S754_zero s -> toFixed 1 x = js "0.0".
Proof. intros Hx. unfold toFixed. now rewrite Hx. Qed.

End ToFixed.

(* ================================================================== *)
(** * The mean, exactly *)
(* ================================================================== *)

Section MeanExact.
Context {rt : Runtime}.
Local Open Scope Z_scope.

Lemma sum_Z_cons (k : Z) (ks : list Z) : sum_Z (k :: ks) = k + sum_Z ks.
Proof. reflexivity. Qed.

Lemma sum_Z_nonneg (ks : list Z) : Forall (fun k => 0 <= k) ks -> 0 <= sum_Z ks.
Proof.
  induction 1 as [|k ks Hk Hks IH]; [cbn; lia|]. rewrite sum_Z_cons. lia.
Qed.

Lemma fold_sum_exact {A} (f : A -> float) (l : list A) :
  forall (ks : list Z) (z0 : Z),
    List.map f l = List.map Number_of_Z ks ->
    Forall (fun k => 0 <= k) ks -> 0 <= z0 -> z0 + sum_Z ks < 2 ^ 53 ->
    fold_left (fun acc o => (acc + f o)%float) l (Number_of_Z z0)
      = Number_of_Z (z0 + sum_Z ks).
Proof.
  induction l as [|x l IH]; intros [|k ks] z0 Hmap Hpos Hz0 Hlt;
    try discriminate.
  - cbn. now rewrite Z.add_0_r.
  - cbn [List.map] in Hmap. injection Hmap as Hx Hl.
    inversion Hpos as [|? ? Hk Hks]; subst.
    rewrite sum_Z_cons in *.
    pose proof (sum_Z_nonneg ks Hks) as Hs.
    cbn [fold_left].
    rewrite Hx, Number_add_exact by lia.
    rewrite (IH ks (z0 + k)) by (auto; lia).
    f_equal. lia.
Qed.

Lemma one_decimal_0 : one_decimal 0 = js "0.0".
Proof. reflexivity. Qed.

(** The quotient of the integers [s] and [len] written with one decimal: the
    exact quotient rounded half up, or, when it lies exactly halfway between
    two one-decimal numbers, possibly the one below. *)
Lemma mean_exact (s len : Z) :
  0 <= s < 2 ^ 45 -> 0 < len < 2 ^ 32 ->
  exists n,
    toFixed 1 (Number_of_Z s / Number_of_Z len)%float = one_decimal n /\
    (n = round_half_up (10 * s) len \/
     (halfway (10 * s) len /\ n = round_half_up (10 * s) len - 1)).
Proof.
  intros Hs Hlen.
  change (2 ^ 45) with 35184372088832 in Hs.
  change (2 ^ 32) with 4294967296 in Hlen.
  destruct (Prim2SF_Number_of_Z len) as (m2 & e2 & E2 & He2 & Hm2);
    [change (2 ^ 53) with 9007199254740992; lia|].
  destruct (Z.eq_dec s 0) as [->|Hs0].
  { exists 0. split.
    - rewrite one_decimal_0. apply toFixed_1_zero with (s := false).
      rewrite div_spec, E2. reflexivity.
    - left. unfold round_half_up.
      replace (2 * (10 * 0) + len) with len by lia.
      symmetry. apply Z.div_small. lia. }
  destruct (Prim2SF_Number_of_Z s) as (m1 & e1 & E1 & He1 & Hm1);
    [change (2 ^ 53) with 9007199254740992; lia|].
  pose proof (Zdigits2_bounds s ltac:(lia)) as Hds.
  pose proof (Zdigits2_bounds len ltac:(lia)) as Hdl.
  assert (Hds45 : Zdigits2 s <= 45) by (apply Zdigits2_le; try lia; exact (proj2 Hs)).
  assert (Hdl32 : Zdigits2 len <= 32) by (apply Zdigits2_le; try lia; exact (proj2 Hlen)).
  assert (Hds1 : 0 < Zdigits2 s) by (destruct s; cbn in *; lia).
  assert (Hdl1 : 0 < Zdigits2 len) by (destruct len; cbn in *; lia).
  set (ds := Zdigits2 s) in *. set (dl := Zdigits2 len) in *.
  set (E := ds - dl - 51).
  set (W := 2 ^ (- E)).
  assert (HW : W = 2 ^ (51 - ds) * 2 ^ dl).
  { unfold W, E. rewrite <- pow2_split by lia. f_equal. lia. }
  assert (H64 : 64 <= 2 ^ (51 - ds)).
  { change 64 with (2 ^ 6). apply Z.pow_le_mono_r; lia. }
  assert (Hpdl : 0 < 2 ^ dl) by (apply Z.pow_pos_nonneg; lia).
  assert (HWlen : 64 * len < W).
  { rewrite HW.
    assert (64 * 2 ^ dl <= 2 ^ (51 - ds) * 2 ^ dl)
      by (apply Z.mul_le_mono_nonneg_r; lia).
    lia. }
  (* s * W lies between 2^(50+dl) and 2^(51+dl) *)
  assert (HsW : s * W < 4503599627370496 * len).
  { assert (H1 : 2 ^ ds * 2 ^ (51 - ds) = 2251799813685248).
    { rewrite <- pow2_split by lia. replace (ds + (51 - ds)) with 51 by lia. reflexivity. }
    assert (H2 : 2 ^ dl = 2 * 2 ^ (dl - 1)).
    { replace dl with (1 + (dl - 1)) at 1 by lia. now rewrite pow2_split by lia. }
    assert (H3 : s * 2 ^ (51 - ds) <= (2 ^ ds - 1) * 2 ^ (51 - ds))
      by (apply Z.mul_le_mono_nonneg_r; lia).
    assert (H4 : s * 2 ^ (51 - ds) * 2 ^ dl <= 2251799813685247 * 2 ^ dl)
      by (apply Z.mul_le_mono_nonneg_r; lia).
    rewrite HW. lia. }
  assert (HWpos : 0 < W) by lia.
  set (X := s * W) in *.
  set (Klo := X / len). set (Khi := (X + len - 1) / len).
  assert (HX : 64 * len < X).
  { assert (1 * W <= s * W) by (apply Z.mul_le_mono_nonneg_r; lia).
    unfold X. lia. }
  destruct (floor_div X len ltac:(lia) ltac:(lia)) as [Hf1 Hf2].
  destruct (ceil_div X len ltac:(lia) ltac:(lia)) as [Hc1 Hc2].
  fold Klo in Hf1, Hf2. fold Khi in Hc1, Hc2.
  assert (HKlo : 0 < Klo).
  { unfold Klo. apply Z.div_str_pos. lia. }
  assert (HKhi : Khi < 9007199254740992).
  { unfold Khi. apply Z.div_lt_upper_bound; lia. }
  assert (HK : Klo <= Khi) by (unfold Klo, Khi; apply Z.div_le_mono; lia).
  assert (Hdiv : between (Prim2SF (Number_of_Z s / Number_of_Z len)%float) Klo Khi E).
  { rewrite div_spec, E1, E2.
    apply (@SFdiv_between m1 m2 e1 e2 s len); try (unfold E; fold ds dl; lia).
    change (2 ^ 53) with 9007199254740992. lia. }
  destruct (Prim2SF (Number_of_Z s / Number_of_Z len)%float)
    as [[]|[]| |[] m e] eqn:Eq; cbn [between] in Hdiv; try contradiction.
  destruct Hdiv as (He & Hlo & Hhi).
  assert (HEneg : E < 0) by (unfold E; lia).
  set (Q := 2 ^ (E - e)) in *.
  assert (HQ : 0 < Q) by (apply Z.pow_pos_nonneg; lia).
  assert (HWQ : 0 < W * Q) by (apply Z.mul_pos_pos; lia).
  assert (HD : 2 ^ (- e) = W * Q).
  { unfold W, Q. rewrite <- pow2_split by lia. f_equal. lia. }
  destruct (toFixed_1_nearest _ false m e Eq) as (n & Hn & Hnear & Htext).
  { unfold integer_part. destruct (0 <=? e) eqn:E0; [apply Z.leb_le in E0; lia|].
    rewrite HD. apply Z.div_lt_upper_bound; [exact HWQ|].
    assert (Khi * Q <= 9007199254740992 * Q)
      by (apply Z.mul_le_mono_nonneg_r; lia).
    assert (1 * Q <= W * Q) by (apply Z.mul_le_mono_nonneg_r; lia).
    change (10 ^ 21) with 1000000000000000000000. lia. }
  exists n. split; [exact Htext|].
  unfold nearest_tenths in Hnear.
  destruct (0 <=? e) eqn:E0; [apply Z.leb_le in E0; lia|].
  rewrite HD in Hnear.
  assert (Hup : forall j, 20 * s < (2 * j + 1) * len -> n <= j).
  { intros j Hj.
    assert (H0 : (20 * s + 1) * W <= (2 * j + 1) * len * W)
      by (apply Z.mul_le_mono_nonneg_r; lia).
    assert (H1 : 20 * (Khi * len) < (2 * j + 1) * len * W)
      by (clear -H0 Hc2 HWlen; unfold X in *; lia).
    assert (H2 : len * (20 * Khi) < len * ((2 * j + 1) * W))
      by (clear -H1; lia).
    apply Z.mul_lt_mono_pos_l in H2; [|lia].
    assert (H3 : 20 * Khi * Q < (2 * j + 1) * W * Q)
      by (apply Z.mul_lt_mono_pos_r; lia).
    assert (H4 : (W * Q) * (2 * n) < (W * Q) * (2 * j + 2))
      by (clear -H3 Hnear Hhi; lia).
    apply Z.mul_lt_mono_pos_l in H4; [|exact HWQ]. clear -H4. lia. }
  assert (Hdown : forall j, (2 * j - 1) * len < 20 * s -> j <= n).
  { intros j Hj.
    assert (H0 : ((2 * j - 1) * len + 1) * W <= 20 * s * W)
      by (apply Z.mul_le_mono_nonneg_r; lia).
    assert (H1 : (2 * j - 1) * len * W < 20 * (Klo * len))
      by (clear -H0 Hf2 HWlen; unfold X in *; lia).
    assert (H2 : len * ((2 * j - 1) * W) < len * (20 * Klo))
      by (clear -H1; lia).
    apply Z.mul_lt_mono_pos_l in H2; [|lia].
    assert (H3 : (2 * j - 1) * W * Q < 20 * Klo * Q)
      by (apply Z.mul_lt_mono_pos_r; lia).
    assert (H4 : (W * Q) * (2 * j - 2) < (W * Q) * (2 * n))
      by (clear -H3 Hnear Hlo; lia).
    apply Z.mul_lt_mono_pos_l in H4; [|exact HWQ]. clear -H4. lia. }
  unfold round_half_up, halfway.
  set (k := (2 * (10 * s) + len) / (2 * len)).
  pose proof (Z.div_mod (2 * (10 * s) + len) (2 * len) ltac:(lia)) as Hdm.
  pose proof (Z.mod_pos_bound (2 * (10 * s) + len) (2 * len) ltac:(lia)) as Hmb.
  fold k in Hdm.
  set (r := (2 * (10 * s) + len) mod (2 * len)) in *.
  assert (Hle : n <= k) by (apply Hup; lia).
  destruct (Z.eq_dec r 0) as [Hr0 | Hr0].
  - destruct (Z.eq_dec n k) as [|Hne]; [now left|]. right. split; [exact Hr0|].
    assert (k - 1 <= n); [|lia]. apply Hdown; lia.
  - left. assert (k <= n); [|lia]. apply Hdown; lia.
Qed.

End MeanExact.

(* ================================================================== *)
(** * Dashboard and report aggregates *)
(* ================================================================== *)

Lemma count_by_status (s : OfferStatus.t) (offers : list Offer.t) :
  List.length (filter (has_status s) offers) =
  List.length (filter (fun x => OfferStatus.eqb x s) (List.map Offer.status offers)).
Proof.
  induction offers as [|o offers IH]; [reflexivity|].
  cbn [filter List.map]. unfold has_status at 1.
  destruct (OfferStatus.eqb (Offer.status o) s); cbn [List.length]; now rewrite IH.
Qed.

Lemma filter_length_le {A} (p : A -> bool) (l : list A) :
  (List.length (filter p l) <= List.length l)%nat.
Proof.
  induction l as [|a l IH]; cbn; [lia|]. destruct (p a); cbn; lia.
Qed.

Lemma no_accepted (offers : list Offer.t) :
  (forall o, In o offers -> Offer.status o <> OfferStatus.accepted) ->
  filter (has_status OfferStatus.accepted) offers = [].
Proof.
  induction offers as [|o offers IH]; intros Hno; [reflexivity|].
  cbn [filter]. unfold has_status at 1.
  destruct (Offer.status o) eqn:Es; cbn [OfferStatus.eqb].
  - apply IH. intros x Hx. apply Hno. now right.
  - exfalso. apply (Hno o); [now left | exact Es].
  - apply IH. intros x Hx. apply Hno. now right.
Qed.

Section Aggregates.
Context {rt : Runtime}.



End Aggregates.





(** The rate is rounded from the binary64 product: 29 accepted offers of 200
    give 14, the product being just below 14.5. *)
Example rate_29_of_200 :
  Math_round (Number_of_nat 29 / Number_of_nat 200 * 100)%float = 14%float.
Proof. reflexivity. Qed.

(* ================================================================== *)
(** * Sessions: what every run of user intents keeps *)
(* ================================================================== *)

Lemma route_eqb_eq (a b : Route.t) : route_eqb a b = true <-> a = b.
Proof. destruct a, b; cbn; split; congruence. Qed.

Lemma run_cons (a : Action) (rest : list Action) (st : AppState) :
  run (a :: rest) st = run rest (dispatch a st).
Proof. reflexivity. Qed.

(** A relation between states that every raised intent respects holds
    between the ends of every valid run. *)
Lemma run_relates (R : AppState -> AppState -> Prop) :
  (forall st, R st st) ->
  (forall a b c, R a b -> R b c -> R a c) ->
  (forall st a, raised st a = true -> R st (dispatch a st)) ->
  forall actions st, valid_run st actions = true -> R st (run actions st).
Proof.
  intros Hrefl Htrans Hstep actions.
  induction actions as [|a rest IH]; intros st Hv; [apply Hrefl|].
  cbn [valid_run] in Hv. apply andb_true_iff in Hv as [Ha Hrest].
  rewrite run_cons. eapply Htrans; [apply Hstep; exact Ha | apply IH; exact Hrest].
Qed.

Lemma handleSend_frame (env : Env) (draft : jsstring) (st : AppState) :
  route (fst (handleSend env draft st)) = route st /\
  email (fst (handleSend env draft st)) = email st /\
  offers (fst (handleSend env draft st)) = offers st /\
  selectedConversationId (fst (handleSend env draft st)) = selectedConversationId st.
Proof.
  unfold handleSend.
  destruct (current (conversations st) (selectedConversationId st));
    [destruct (str_falsy (trim draft))|]; cbn; auto.
Qed.

Lemma openChatFor_frame (h : jsstring) (st : AppState) :
  email (openChatFor h st) = email st /\
  offers (openChatFor h st) = offers st /\
  conversations (openChatFor h st) = conversations st.
Proof.
  unfold openChatFor. destruct (find_first _ (conversations st)); cbn; auto.
Qed.

Lemma step_stays_signed_in (st : AppState) (a : Action) :
  raised st a = true -> route (dispatch a st) <> Route.login.
Proof.
  destruct a as [e|r|id p|h|i|env draft]; cbn [raised dispatch]; intros H.
  - cbn. discriminate.
  - apply andb_true_iff in H as [_ H]. cbn.
    destruct r; cbn in H; discriminate.
  - destruct p as [[] [] [] [] [] [] [] [s|] []]; try discriminate.
    apply andb_true_iff in H as [H _]. apply route_eqb_eq in H.
    cbn. rewrite H. discriminate.
  - apply route_eqb_eq in H. unfold openChatFor.
    destruct (find_first _ (conversations st)); cbn; [discriminate|].
    rewrite H. discriminate.
  - apply andb_true_iff in H as [H _]. apply route_eqb_eq in H.
    cbn. rewrite H. discriminate.
  - apply route_eqb_eq in H.
    destruct (handleSend_frame env draft st) as [-> _]. rewrite H. discriminate.
Qed.

Lemma run_stays_signed_in (actions : list Action) (st : AppState) :
  route st <> Route.login -> valid_run st actions = true ->
  route (run actions st) <> Route.login.
Proof.
  intros Hr Hv.
  apply (run_relates (fun a b => route a <> Route.login -> route b <> Route.login));
    auto.
  intros s a Ha _. now apply step_stays_signed_in.
Qed.

(** X4. Once past the login screen a session never shows it again: whatever
    intents the rendered tree raises, the route stays off [login]; and on the
    login screen the only intent that can be raised is the sign-in. *)
Theorem session_never_returns_to_login (st : AppState) (actions : list Action) :
  valid_run st actions = true ->
  (route st <> Route.login -> route (run actions st) <> Route.login) /\
  (forall a rest, actions = a :: rest ->
     route (run actions st) <> Route.login /\
     (route st = Route.login -> exists e, a = Login e)).
Proof.
  intros Hv. split.
  - intros Hr. now apply run_stays_signed_in.
  - intros a rest ->. cbn [valid_run] in Hv.
    apply andb_true_iff in Hv as [Ha Hrest]. split.
    + rewrite run_cons. apply run_stays_signed_in; [|exact Hrest].
      now apply step_stays_signed_in.
    + intros Hl. destruct a as [e|r|id p|h|i|env draft]; cbn [raised] in Ha.
      * now exists e.
      * rewrite Hl in Ha. discriminate.
      * destruct p as [[] [] [] [] [] [] [] [s|] []]; try discriminate.
        rewrite Hl in Ha. discriminate.
      * rewrite Hl in Ha. discriminate.
      * rewrite Hl in Ha. discriminate.
      * rewrite Hl in Ha. discriminate.
Qed.

Lemma session_never_returns_to_login_witness :
  route (run sample_session seed_state) <> Route.login.
Proof.
  refine (proj1 (proj2 (@session_never_returns_to_login seed_state sample_session _)
                   _ _ eq_refl)).
  vm_compute. reflexivity.
Defined.

Lemma step_keeps_email (st : AppState) (a : Action) :
  raised st a = true -> route st <> Route.login ->
  email (dispatch a st) = email st.
Proof.
  destruct a as [e|r|id p|h|i|env draft]; cbn [raised dispatch]; intros H Hr;
    try reflexivity.
  - apply route_eqb_eq in H. contradiction.
  - apply openChatFor_frame.
  - apply handleSend_frame.
Qed.

Lemma run_keeps_email (actions : list Action) :
  forall st, route st <> Route.login -> valid_run st actions = true ->
  email (run actions st) = email st.
Proof.
  induction actions as [|a rest IH]; intros st Hr Hv; [reflexivity|].
  cbn [valid_run] in Hv. apply andb_true_iff in Hv as [Ha Hrest].
  rewrite run_cons, IH; [now apply step_keeps_email| |exact Hrest].
  now apply step_stays_signed_in.
Qed.

(** X10. The email of a session is fixed by the sign-in: it is the text typed
    on the login screen, or [provider@example.com] when nothing was typed, so
    it is never empty; no later intent changes it. *)
Theorem session_email (st : AppState) (e : jsstring) (rest : list Action) :
  valid_run st (Login e :: rest) = true ->
  email (run (Login e :: rest) st)
    = (if str_falsy e then js "provider@example.com" else e) /\
  email (run (Login e :: rest) st) <> [] /\
  route (dispatch (Login e) st) = Route.dashboard.
Proof.
  intros Hv. cbn [valid_run] in Hv. apply andb_true_iff in Hv as [Ha Hrest].
  rewrite run_cons, run_keeps_email; [|cbn; discriminate|exact Hrest].
  cbn. repeat split.
  destruct e; cbn; discriminate.
Qed.

Lemma session_email_witness :
  email (run sample_session seed_state) = js "provider@example.com".
Proof.
  refine (proj1 (@session_email seed_state [] (tl sample_session) _)).
  vm_compute. reflexivity.
Defined.

(* ================================================================== *)
(** * The selection *)
(* ================================================================== *)

Lemma find_first_exists {A} (p : A -> bool) (xs : list A) (x : A) :
  In x xs -> p x = true -> exists y, find_first p xs = Some y.
Proof.
  induction xs as [|a xs IH]; cbn; [contradiction|].
  intros [-> | Hin] Hp.
  - rewrite Hp. eauto.
  - destruct (p a); eauto.
Qed.

Lemma selection_valid_current (st : AppState) :
  selection_valid st ->
  match current (conversations st) (selectedConversationId st) with
  | Some c => selectedConversationId st = Some (Conversation.id c) /\
              In c (conversations st)
  | None => conversations st = [] /\ selectedConversationId st = None
  end.
Proof.
  unfold selection_valid. rewrite current_unfold.
  destruct (selectedConversationId st) as [i|] eqn:Es.
  - intros (c & Hc & Hi).
    destruct (@find_first_exists _ (selects (Some i)) (conversations st) c Hc)
      as (y & Hy).
    { cbn. now apply str_eqb_eq. }
    rewrite Hy. apply find_first_some_in in Hy as [Hin Hsel].
    cbn in Hsel. apply str_eqb_eq in Hsel. subst. split; [now rewrite Hsel | exact Hin].
  - intros ->. cbn. auto.
Qed.

Lemma sendMessage_ids (env : Env) (convId body : jsstring) (st : AppState) :
  List.map Conversation.id (conversations (sendMessage env convId body st))
    = List.map Conversation.id (conversations st).
Proof.
  cbn. rewrite map_map. apply map_ext. intros c.
  now destruct (str_eqb (Conversation.id c) convId).
Qed.

Lemma handleSend_ids (env : Env) (draft : jsstring) (st : AppState) :
  List.map Conversation.id (conversations (fst (handleSend env draft st)))
    = List.map Conversation.id (conversations st).
Proof.
  unfold handleSend.
  destruct (current (conversations st) (selectedConversationId st));
    [destruct (str_falsy (trim draft))|]; cbn [fst]; try reflexivity.
  apply sendMessage_ids.
Qed.

Lemma selection_valid_ids (st st' : AppState) :
  List.map Conversation.id (conversations st')
    = List.map Conversation.id (conversations st) ->
  selectedConversationId st' = selectedConversationId st ->
  selection_valid st -> selection_valid st'.
Proof.
  unfold selection_valid. intros Hids ->.
  destruct (selectedConversationId st) as [i|].
  - intros (c & Hc & Hi).
    assert (Hin : In i (List.map Conversation.id (conversations st')))
      by (rewrite Hids; apply in_map_iff; eauto).
    apply in_map_iff in Hin as (c' & Hc' & Hin'). eauto.
  - intros Hnil. rewrite Hnil in Hids.
    now destruct (conversations st').
Qed.

Lemma step_selection_valid (st : AppState) (a : Action) :
  raised st a = true -> selection_valid st -> selection_valid (dispatch a st).
Proof.
  destruct a as [e|r|id p|h|i|env draft]; cbn [raised dispatch]; intros H Hs;
    try exact Hs.
  - unfold openChatFor.
    destruct (find_first _ (conversations st)) as [c|] eqn:Ef; [|exact Hs].
    apply find_first_some_in in Ef as [Hin _].
    unfold selection_valid. cbn. eauto.
  - apply andb_true_iff in H as [_ H]. apply existsb_exists in H as (c & Hc & Hi).
    apply str_eqb_eq in Hi. unfold selection_valid. cbn. eauto.
  - eapply selection_valid_ids; [apply handleSend_ids| |exact Hs].
    apply handleSend_frame.
Qed.

(** X5. The selection never dangles.  In a state where the selected id names
    a conversation of the collection (or nothing is selected and there is no
    conversation), it still does after any intents the rendered tree raises;
    the active conversation is then the first one carrying the selected id,
    and it is absent only when the collection is empty. *)
Theorem selection_stays_valid (st : AppState) (actions : list Action) :
  selection_valid st -> valid_run st actions = true ->
  selection_valid (run actions st) /\
  (forall c,
     current (conversations (run actions st))
             (selectedConversationId (run actions st)) = Some c ->
     selectedConversationId (run actions st) = Some (Conversation.id c)) /\
  (current (conversations (run actions st))
           (selectedConversationId (run actions st)) = None ->
   conversations (run actions st) = []).
Proof.
  intros Hs Hv.
  assert (Hend : selection_valid (run actions st)).
  { revert st Hs Hv. induction actions as [|a rest IH]; intros st Hs Hv;
      [exact Hs|].
    cbn [valid_run] in Hv. apply andb_true_iff in Hv as [Ha Hrest].
    rewrite run_cons. apply IH; [|exact Hrest].
    now apply step_selection_valid. }
  split; [exact Hend|].
  apply selection_valid_current in Hend.
  destruct (current _ _) as [c|]; split.
  - intros c' [= <-]. apply Hend.
  - discriminate.
  - discriminate.
  - intros _. apply Hend.
Qed.

Lemma selection_stays_valid_witness :
  selection_valid (run sample_session seed_state).
Proof.
  refine (proj1 (@selection_stays_valid seed_state sample_session _ _)).
  - exists (nth 0 (conversations seed_state) (Conversation.mk [] [] [] [] [] [])).
    split; [left; reflexivity | reflexivity].
  - vm_compute. reflexivity.
Defined.

(* ================================================================== *)
(** * Offers along a session *)
(* ================================================================== *)

Lemma Forall2_refl {A} (R : A -> A -> Prop) (l : list A) :
  (forall x, R x x) -> Forall2 R l l.
Proof. intros H. induction l; constructor; auto. Qed.

Lemma Forall2_trans {A} (R : A -> A -> Prop) :
  (forall x y z, R x y -> R y z -> R x z) ->
  forall l1 l2 l3, Forall2 R l1 l2 -> Forall2 R l2 l3 -> Forall2 R l1 l3.
Proof.
  intros Ht l1 l2 l3 H12. revert l3.
  induction H12 as [|x y l1 l2 Hxy _ IH]; intros l3 H23;
    inversion H23; subst; constructor; eauto.
Qed.

Lemma Forall2_map_same {A} (R : A -> A -> Prop) (f : A -> A) (l : list A) :
  (forall x, R x (f x)) -> Forall2 R l (List.map f l).
Proof. intros H. induction l; cbn; constructor; auto. Qed.

Lemma Forall2_impl {A} (R S : A -> A -> Prop) (l l' : list A) :
  (forall x y, R x y -> S x y) -> Forall2 R l l' -> Forall2 S l l'.
Proof. intros H HF. induction HF; constructor; auto. Qed.

Lemma offer_evolves_refl (x : Offer.t) : offer_evolves x x.
Proof. unfold offer_evolves, same_but_status. auto 10. Qed.

Lemma offer_evolves_trans (x y z : Offer.t) :
  offer_evolves x y -> offer_evolves y z -> offer_evolves x z.
Proof.
  unfold offer_evolves, same_but_status.
  intros [(A1 & A2 & A3 & A4 & A5 & A6 & A7 & A8) Hs1]
         [(B1 & B2 & B3 & B4 & B5 & B6 & B7 & B8) Hs2].
  split; [repeat split; congruence|].
  destruct Hs2 as [Hs2 | Hs2]; [|now right].
  destruct Hs1 as [Hs1 | Hs1]; [left | right]; congruence.
Qed.

Lemma step_offers (st : AppState) (a : Action) :
  raised st a = true ->
  Forall2 offer_evolves (offers st) (offers (dispatch a st)).
Proof.
  destruct a as [e|r|id p|h|i|env draft]; cbn [raised dispatch]; intros H;
    try (apply Forall2_refl; exact offer_evolves_refl).
  - destruct p as [[] [] [] [] [] [] [] [s|] []]; try discriminate.
    apply andb_true_iff in H as [_ H]. cbn [updateOffer set_offers offers].
    apply Forall2_map_same. intros x.
    destruct (str_eqb (Offer.id x) id); [|apply offer_evolves_refl].
    split.
    + unfold same_but_status. cbn. auto 10.
    + right. cbn. destruct s; cbn in H; discriminate.
  - destruct (openChatFor_frame h st) as (_ & -> & _).
    apply Forall2_refl; exact offer_evolves_refl.
  - destruct (handleSend_frame env draft st) as (_ & _ & -> & _).
    apply Forall2_refl; exact offer_evolves_refl.
Qed.

Lemma run_offers (actions : list Action) (st : AppState) :
  valid_run st actions = true ->
  Forall2 offer_evolves (offers st) (offers (run actions st)).
Proof.
  apply (run_relates (fun a b => Forall2 offer_evolves (offers a) (offers b))).
  - intros s. apply Forall2_refl; exact offer_evolves_refl.
  - intros a b c. apply Forall2_trans. exact offer_evolves_trans.
  - apply step_offers.
Qed.

Lemma Forall2_same_length {A} (R : A -> A -> Prop) (l l' : list A) :
  Forall2 R l l' -> List.length l = List.length l'.
Proof. intros H. induction H; cbn; congruence. Qed.

(** X6. A session never creates, removes or reorders offers and never edits
    one: after any intents the rendered tree raises, the collection has the
    same length and, position by position, each offer has its id and every
    other field but the status as before. *)
Theorem session_keeps_offers (st : AppState) (actions : list Action) :
  valid_run st actions = true ->
  Forall2 same_but_status (offers st) (offers (run actions st)) /\
  List.length (offers (run actions st)) = List.length (offers st) /\
  List.map Offer.id (offers (run actions st)) = List.map Offer.id (offers st).
Proof.
  intros Hv. pose proof (run_offers actions st Hv) as H.
  split; [|split].
  - eapply Forall2_impl; [|exact H]. now intros x y [Hs _].
  - symmetry. eapply Forall2_same_length; exact H.
  - induction H as [|x y l l' [Hxy _] _ IH]; cbn; [reflexivity|].
    f_equal; [apply Hxy | exact IH].
Qed.

Lemma session_keeps_offers_witness :
  List.length (offers (run sample_session seed_state)) = 4%nat.
Proof.
  refine (proj1 (proj2 (@session_keeps_offers seed_state sample_session _))).
  vm_compute. reflexivity.
Defined.

Lemma pending_count_le (l l' : list Offer.t) :
  Forall2 offer_evolves l l' ->
  (count_status OfferStatus.pending l' <= count_status OfferStatus.pending l)%nat.
Proof.
  unfold count_status. intros H.
  induction H as [|x y l l' [_ Hs] _ IH]; cbn [filter]; [lia|].
  change (has_status OfferStatus.pending y)
    with (OfferStatus.eqb (Offer.status y) OfferStatus.pending).
  change (has_status OfferStatus.pending x)
    with (OfferStatus.eqb (Offer.status x) OfferStatus.pending).
  destruct (OfferStatus.eqb (Offer.status y) OfferStatus.pending) eqn:Ey.
  - assert (Hy : Offer.status y = OfferStatus.pending)
      by (destruct (Offer.status y); cbn in Ey; congruence).
    destruct Hs as [Hs | Hs]; [|contradiction].
    rewrite <- Hs, Ey. cbn. lia.
  - destruct (OfferStatus.eqb (Offer.status x) OfferStatus.pending); cbn; lia.
Qed.

(** X7. A decision is never taken back to pending: the rendered tree only
    raises accept and decline, so after any of its intents an offer that was
    accepted or declined is still accepted or declined, and the pending count
    of the dashboard has not grown. *)
Theorem session_never_reopens_offers (st : AppState) (actions : list Action) :
  valid_run st actions = true ->
  Forall2 (fun x x' => Offer.status x <> OfferStatus.pending ->
                       Offer.status x' <> OfferStatus.pending)
          (offers st) (offers (run actions st)) /\
  (pending (DashboardPage (offers (run actions st)))
     <= pending (DashboardPage (offers st)))%nat.
Proof.
  intros Hv. pose proof (run_offers actions st Hv) as H. split.
  - eapply Forall2_impl; [|exact H].
    intros x y [_ [Hs | Hs]] Hx; [congruence | exact Hs].
  - apply pending_count_le. exact H.
Qed.

Lemma session_never_reopens_offers_witness :
  (pending (DashboardPage (offers (run sample_session seed_state))) <= 2)%nat.
Proof.
  refine (proj2 (@session_never_reopens_offers seed_state sample_session _)).
  vm_compute. reflexivity.
Defined.

(* ================================================================== *)
(** * Messages along a session *)
(* ================================================================== *)

Lemma trimStart_head (s : jsstring) (c : code_unit) (rest : jsstring) :
  trimStart s = c :: rest -> is_white_space c = false.
Proof.
  induction s as [|x s IH]; cbn [trimStart]; [discriminate|].
  destruct (is_white_space x) eqn:Ex; [exact IH|].
  intros [= <- _]. exact Ex.
Qed.

Lemma trimStart_snoc (a : jsstring) (c : code_unit) :
  is_white_space c = false -> trimStart (a ++ [c]) = trimStart a ++ [c].
Proof.
  intros Hc. induction a as [|x a IH]; cbn [trimStart app].
  - now rewrite Hc.
  - destruct (is_white_space x); [exact IH | reflexivity].
Qed.

Lemma trim_trimmed (s : jsstring) : trim s <> [] -> trimmed (trim s).
Proof.
  intros Hne. split; [exact Hne|]. unfold trim, trimEnd in *. split.
  - intros c rest Hu.
    destruct (trimStart s) as [|c0 t0] eqn:Et.
    { cbn in Hne. contradiction. }
    pose proof (trimStart_head s c0 t0 Et) as Hc0.
    cbn [rev] in Hu. rewrite trimStart_snoc in Hu by exact Hc0.
    rewrite rev_app_distr in Hu. cbn in Hu. injection Hu as <- _. exact Hc0.
  - intros c front Hu.
    apply (f_equal (@rev code_unit)) in Hu.
    rewrite rev_involutive, rev_app_distr in Hu. cbn in Hu.
    eapply trimStart_head. exact Hu.
Qed.

Lemma conversation_grows_refl (c : Conversation.t) : conversation_grows c c.
Proof.
  split; [unfold same_but_messages; auto 10|].
  exists []. now rewrite app_nil_r.
Qed.

Lemma conversation_grows_trans (x y z : Conversation.t) :
  conversation_grows x y -> conversation_grows y z -> conversation_grows x z.
Proof.
  unfold conversation_grows, same_but_messages.
  intros [(A1 & A2 & A3 & A4 & A5) (a1 & Ha1 & Fa1)]
         [(B1 & B2 & B3 & B4 & B5) (a2 & Ha2 & Fa2)].
  split; [repeat split; congruence|].
  exists (a1 ++ a2). split.
  - now rewrite Ha2, Ha1, app_assoc.
  - apply Forall_app. now split.
Qed.

Lemma sendMessage_grows (env : Env) (convId body : jsstring) (st : AppState) :
  trimmed body ->
  Forall2 conversation_grows (conversations st)
          (conversations (sendMessage env convId body st)).
Proof.
  intros Hb. cbn [sendMessage set_conversations conversations].
  apply Forall2_map_same. intros c.
  destruct (str_eqb (Conversation.id c) convId); [|apply conversation_grows_refl].
  split; [unfold same_but_messages; cbn; auto 10|].
  eexists. split; [reflexivity|].
  constructor; [|constructor]. split; [reflexivity | exact Hb].
Qed.

Lemma step_conversations (st : AppState) (a : Action) :
  raised st a = true ->
  Forall2 conversation_grows (conversations st) (conversations (dispatch a st)).
Proof.
  destruct a as [e|r|id p|h|i|env draft]; cbn [raised dispatch]; intros H;
    try (apply Forall2_refl; exact conversation_grows_refl).
  - destruct (openChatFor_frame h st) as (_ & _ & ->).
    apply Forall2_refl; exact conversation_grows_refl.
  - unfold handleSend.
    destruct (current (conversations st) (selectedConversationId st)) as [c|];
      [|apply Forall2_refl; exact conversation_grows_refl].
    destruct (str_falsy (trim draft)) eqn:Et;
      [apply Forall2_refl; exact conversation_grows_refl|].
    cbn [fst]. apply sendMessage_grows. apply trim_trimmed.
    intros Hnil. rewrite Hnil in Et. discriminate.
Qed.

Lemma run_conversations (actions : list Action) (st : AppState) :
  valid_run st actions = true ->
  Forall2 conversation_grows (conversations st) (conversations (run actions st)).
Proof.
  apply (run_relates (fun a b =>
           Forall2 conversation_grows (conversations a) (conversations b))).
  - intros s. apply Forall2_refl; exact conversation_grows_refl.
  - intros a b c. apply Forall2_trans. exact conversation_grows_trans.
  - apply step_conversations.
Qed.

(** X8. Conversations are append-only along a session: after any intents the
    rendered tree raises there are as many conversations, in the same order
    and with the same id, holder and project, and the messages each one had
    are the first messages it has now, unchanged and in order. *)
Theorem session_appends_messages (st : AppState) (actions : list Action) :
  valid_run st actions = true ->
  Forall2 (fun c c' =>
             same_but_messages c c' /\
             firstn (List.length (Conversation.messages c))
                    (Conversation.messages c') = Conversation.messages c /\
             (List.length (Conversation.messages c)
                <= List.length (Conversation.messages c'))%nat)
          (conversations st) (conversations (run actions st)) /\
  List.length (conversations (run actions st)) = List.length (conversations st).
Proof.
  intros Hv. pose proof (run_conversations actions st Hv) as H. split.
  - eapply Forall2_impl; [|exact H].
    intros c c' [Hs (added & Ha & _)]. split; [exact Hs|]. rewrite Ha. split.
    + rewrite firstn_app, Nat.sub_diag, firstn_all. cbn. apply app_nil_r.
    + rewrite length_app. lia.
  - symmetry. eapply Forall2_same_length; exact H.
Qed.

Lemma session_appends_messages_witness :
  List.length (conversations (run sample_session seed_state)) = 2%nat.
Proof.
  refine (proj2 (@session_appends_messages seed_state sample_session _)).
  vm_compute. reflexivity.
Defined.

(** X9. Whatever a session adds to a conversation was written by the
    provider and is a trimmed text: every message after the ones the
    conversation had comes from [provider] and has a body that is not empty
    and neither starts nor ends with white space. *)
Theorem session_adds_provider_messages (st : AppState) (actions : list Action) :
  valid_run st actions = true ->
  Forall2 (fun c c' =>
             forall m, In m (skipn (List.length (Conversation.messages c))
                                   (Conversation.messages c')) ->
                       ChatMessage.from m = Sender.provider /\
                       trimmed (ChatMessage.body m))
          (conversations st) (conversations (run actions st)).
Proof.
  intros Hv. pose proof (run_conversations actions st Hv) as H.
  eapply Forall2_impl; [|exact H].
  intros c c' [_ (added & Ha & Hf)] m Hm.
  rewrite Ha, skipn_app, Nat.sub_diag, skipn_all in Hm. cbn in Hm.
  rewrite Forall_forall in Hf. exact (Hf m Hm).
Qed.

Lemma session_adds_provider_messages_witness :
  Forall2 (fun c c' =>
             forall m, In m (skipn (List.length (Conversation.messages c))
                                   (Conversation.messages c')) ->
                       ChatMessage.from m = Sender.provider /\
                       trimmed (ChatMessage.body m))
          (conversations seed_state) (conversations (run sample_session seed_state)).
Proof.
  refine (@session_adds_provider_messages seed_state sample_session _).
  vm_compute. reflexivity.
Defined.

(* ================================================================== *)
(** * Status changes *)
(* ================================================================== *)

Lemma set_offers_map (f g : Offer.t -> Offer.t) (st : AppState) :
  set_offers (List.map g) (set_offers (List.map f) st)
    = set_offers (List.map (fun o => g (f o))) st.
Proof. unfold set_offers. cbn. now rewrite map_map. Qed.

Lemma set_offers_ext (f g : Offer.t -> Offer.t) (st : AppState) :
  (forall o, f o = g o) ->
  set_offers (List.map f) st = set_offers (List.map g) st.
Proof. intros H. unfold set_offers. f_equal. now apply map_ext. Qed.

(** X11. The last decision on an offer wins: setting the status of an id
    twice leaves the state that the second setting alone gives; in
    particular, setting the same status again changes nothing. *)
Theorem setStatusFor_last_wins (id : jsstring) (s1 s2 : OfferStatus.t)
  (st : AppState) :
  setStatusFor id s2 (setStatusFor id s1 st) = setStatusFor id s2 st /\
  setStatusFor id s1 (setStatusFor id s1 st) = setStatusFor id s1 st.
Proof.
  assert (H : forall a b,
            setStatusFor id b (setStatusFor id a st) = setStatusFor id b st).
  { intros a b. unfold setStatusFor, updateOffer.
    rewrite set_offers_map. apply set_offers_ext. intros o.
    destruct (str_eqb (Offer.id o) id) eqn:E; cbn; now rewrite E. }
  split; apply H.
Qed.

(** X12. Decisions on offers with different ids do not interfere: they give
    the same state in either order. *)
Theorem setStatusFor_commutes (id1 id2 : jsstring) (s1 s2 : OfferStatus.t)
  (st : AppState) :
  id1 <> id2 ->
  setStatusFor id1 s1 (setStatusFor id2 s2 st)
    = setStatusFor id2 s2 (setStatusFor id1 s1 st).
Proof.
  intros Hne. unfold setStatusFor, updateOffer.
  rewrite !set_offers_map. apply set_offers_ext. intros o.
  destruct (str_eqb (Offer.id o) id1) eqn:E1;
    destruct (str_eqb (Offer.id o) id2) eqn:E2; cbn; rewrite ?E1, ?E2;
    try reflexivity.
  apply str_eqb_eq in E1, E2. congruence.
Qed.

Lemma setStatusFor_commutes_witness :
  setStatusFor (js "OF-1029") OfferStatus.accepted
    (setStatusFor (js "OF-1039") OfferStatus.declined seed_state)
  = setStatusFor (js "OF-1039") OfferStatus.declined
      (setStatusFor (js "OF-1029") OfferStatus.accepted seed_state).
Proof.
  refine (@setStatusFor_commutes (js "OF-1029") (js "OF-1039") _ _ seed_state _).
  vm_compute. discriminate.
Defined.

Lemma filter_map_swap {A} (p : A -> bool) (f : A -> A) (l : list A) :
  filter p (List.map f l) = List.map f (filter (fun x => p (f x)) l).
Proof.
  induction l as [|a l IH]; cbn; [reflexivity|].
  destruct (p (f a)); cbn; now rewrite IH.
Qed.

Section SearchAndStatus.
Context {rt : Runtime}.

(** X13. A decision does not disturb a search under [all]: after the status
    of an id is set, the text filter lists the same offers in the same order,
    the offers carrying the id now showing the new status. *)
Theorem filtered_after_setStatusFor (id : jsstring) (s : OfferStatus.t)
  (st : AppState) (query : jsstring) :
  filtered (offers (setStatusFor id s st)) query all =
    List.map (fun o => if str_eqb (Offer.id o) id
                       then spread o (Patch.of_status s) else o)
             (filtered (offers st) query all) /\
  List.map Offer.id (filtered (offers (setStatusFor id s st)) query all)
    = List.map Offer.id (filtered (offers st) query all).
Proof.
  assert (E : filtered (offers (setStatusFor id s st)) query all =
    List.map (fun o => if str_eqb (Offer.id o) id
                       then spread o (Patch.of_status s) else o)
             (filtered (offers st) query all)).
  { unfold filtered. cbn [setStatusFor updateOffer set_offers offers].
    rewrite !filter_map_swap. f_equal.
    etransitivity.
    - apply filter_ext. intros o.
      assert (Hh : haystack (if str_eqb (Offer.id o) id
                             then spread o (Patch.of_status s) else o)
                   = haystack o)
        by now destruct (str_eqb (Offer.id o) id).
      rewrite Hh. reflexivity.
    - reflexivity. }
  split; [exact E|]. rewrite E, map_map. apply map_ext. intros o.
  now destruct (str_eqb (Offer.id o) id).
Qed.

End SearchAndStatus.

(* ================================================================== *)
(** * Dashboard counts *)
(* ================================================================== *)

(** X14. The three status counts of the dashboard add up to its total. *)
Theorem dashboard_counts_add_up (offers : list Offer.t) :
  (accepted (DashboardPage offers) + pending (DashboardPage offers)
   + declined (DashboardPage offers))%nat = total (DashboardPage offers).
Proof.
  cbn [DashboardPage accepted pending declined total].
  unfold has_status.
  induction offers as [|o offers IH]; [reflexivity|].
  cbn [filter].
  destruct (Offer.status o); cbn [OfferStatus.eqb List.length]; lia.
Qed.

Lemma count_status_unchanged (id : jsstring) (next : Patch.t) (s : OfferStatus.t)
  (l : list Offer.t) :
  (forall x, In x l -> Offer.id x <> id) ->
  count_status s (List.map (fun o => if str_eqb (Offer.id o) id
                                     then spread o next else o) l)
    = count_status s l.
Proof.
  intros H. rewrite map_fixed; [reflexivity|].
  intros x Hx. destruct (str_eqb (Offer.id x) id) eqn:E; [|reflexivity].
  apply str_eqb_eq in E. exfalso. exact (H x Hx E).
Qed.

Lemma count_status_cons (s : OfferStatus.t) (x : Offer.t) (l : list Offer.t) :
  count_status s (x :: l)
    = ((if OfferStatus.eqb (Offer.status x) s then 1 else 0) + count_status s l)%nat.
Proof.
  unfold count_status. cbn [filter]. unfold has_status at 1.
  now destruct (OfferStatus.eqb (Offer.status x) s).
Qed.

(** X15. When ids are unique, deciding on an offer moves exactly one offer
    between the counts: the count of the new status grows by one, the count
    of the status the offer had shrinks by one, and the third count is as it
    was. *)
Theorem setStatusFor_moves_one (st : AppState) (o : Offer.t) (s : OfferStatus.t) :
  NoDup (List.map Offer.id (offers st)) ->
  In o (offers st) -> Offer.status o <> s ->
  count_status s (offers (setStatusFor (Offer.id o) s st))
    = S (count_status s (offers st)) /\
  S (count_status (Offer.status o) (offers (setStatusFor (Offer.id o) s st)))
    = count_status (Offer.status o) (offers st) /\
  (forall s', s' <> s -> s' <> Offer.status o ->
     count_status s' (offers (setStatusFor (Offer.id o) s st))
       = count_status s' (offers st)).
Proof.
  cbn [setStatusFor updateOffer set_offers offers].
  generalize (offers st) as l. intros l Hnd Hin Hs.
  assert (Hkey : forall s',
    (count_status s'
       (List.map (fun x => if str_eqb (Offer.id x) (Offer.id o)
                           then spread x (Patch.of_status s) else x) l)
     + (if OfferStatus.eqb (Offer.status o) s' then 1 else 0)
     = count_status s' l + (if OfferStatus.eqb s s' then 1 else 0))%nat).
  { intros s'. induction l as [|x l IH]; [contradiction|].
    cbn [List.map] in *. inversion Hnd as [|? ? Hx Hl]; subst.
    destruct Hin as [-> | Hin].
    - rewrite str_eqb_refl, !count_status_cons, count_status_unchanged.
      + cbn. lia.
      + intros y Hy He. apply Hx. rewrite <- He. now apply in_map.
    - assert (Hne : str_eqb (Offer.id x) (Offer.id o) = false).
      { apply str_eqb_neq. intros He. apply Hx. rewrite He. now apply in_map. }
      rewrite Hne, !count_status_cons. specialize (IH Hl Hin). lia. }
  assert (Hrefl : forall a, OfferStatus.eqb a a = true) by now intros [].
  assert (Hneq : forall a b, a <> b -> OfferStatus.eqb a b = false).
  { intros [] [] H; cbn; congruence. }
  repeat split.
  - pose proof (Hkey s) as H. rewrite Hrefl, (Hneq _ _ Hs) in H. lia.
  - pose proof (Hkey (Offer.status o)) as H.
    rewrite Hrefl, (Hneq s (Offer.status o)) in H by congruence. lia.
  - intros s' H1 H2. pose proof (Hkey s') as H.
    rewrite (Hneq (Offer.status o) s'), (Hneq s s') in H by congruence. lia.
Qed.

Lemma setStatusFor_moves_one_witness :
  count_status OfferStatus.accepted
    (offers (setStatusFor (js "OF-1029") OfferStatus.accepted seed_state)) = 2%nat.
Proof.
  refine (proj1 (@setStatusFor_moves_one seed_state
                   (hd (Offer.mk [] [] [] 0 0 [] [] OfferStatus.pending None) seedOffers)
                   OfferStatus.accepted _ _ _)).
  - vm_compute. repeat constructor; simpl; intuition discriminate.
  - left. reflexivity.
  - vm_compute. discriminate.
Defined.

(* ================================================================== *)
(** * The extremes of the rate *)
(* ================================================================== *)

Lemma div_eucl_multiple (a b : Z) :
  (0 < b)%Z -> Z.div_eucl (b * a) b = (a, 0%Z).
Proof.
  intros Hb.
  pose proof (Z.div_eucl_eq (b * a) b ltac:(lia)) as He.
  pose proof (Z.mod_pos_bound (b * a) b Hb) as Hm.
  unfold Z.modulo in Hm.
  destruct (Z.div_eucl (b * a) b) as [q r].
  assert (r = 0 /\ q = a)%Z as [-> ->]; [|reflexivity].
  assert (Hr : (b * (a - q) = r)%Z) by lia.
  assert (a - q = 0)%Z by nia. split; nia.
Qed.

(** A positive finite number divided by itself is one. *)
Lemma fdiv_self (x : float) (m : positive) (e : Z) :
  Prim2SF x = S754_finite false m e -> (x / x)%float = 1%float.
Proof.
  intros Hx. apply Prim2SF_inj. rewrite div_spec, Hx.
  unfold SF64div. cbn [SFdiv xorb]. unfold SFdiv_core_binary.
  rewrite !Z.sub_diag.
  change (Z.min (fexp prec emax 0) 0) with (-53)%Z.
  change (0 - -53)%Z with 53%Z. cbv iota.
  rewrite Z.shiftl_mul_pow2 by lia.
  rewrite div_eucl_multiple by lia.
  assert (Hl : new_location (Z.pos m) 0 = loc_Exact).
  { unfold new_location. now destruct (Z.even (Z.pos m)). }
  rewrite Hl. vm_compute. reflexivity.
Qed.

Lemma fdiv_zero (x : float) (m : positive) (e : Z) :
  Prim2SF x = S754_finite false m e -> (0 / x)%float = 0%float.
Proof.
  intros Hx. apply Prim2SF_inj. rewrite div_spec, Hx. reflexivity.
Qed.

Lemma all_accepted (offers : list Offer.t) :
  (forall o, In o offers -> Offer.status o = OfferStatus.accepted) ->
  filter (has_status OfferStatus.accepted) offers = offers.
Proof.
  induction offers as [|o offers IH]; intros H; [reflexivity|].
  cbn [filter]. unfold has_status at 1. rewrite (H o) by now left.
  cbn. f_equal. apply IH. intros x Hx. apply H. now right.
Qed.

(** X16. The two ends of the rate are exact: when no offer is accepted the
    acceptance rate is 0, and when every offer of a non-empty collection is
    accepted it is 100. *)
Theorem acceptanceRate_extremes (offers : list Offer.t) :
  (Z.of_nat (List.length offers) < 2 ^ 32)%Z ->
  ((forall o, In o offers -> Offer.status o <> OfferStatus.accepted) ->
   acceptanceRate (DashboardPage offers) = 0%float) /\
  (offers <> [] ->
   (forall o, In o offers -> Offer.status o = OfferStatus.accepted) ->
   acceptanceRate (DashboardPage offers) = 100%float).
Proof.
  intros Hlen. cbn [DashboardPage acceptanceRate].
  destruct offers as [|o offers]; [split; [reflexivity | contradiction]|].
  cbn [Nat.eqb List.length] in *.
  destruct (Prim2SF_Number_of_Z (Z.of_nat (S (List.length offers))))
    as (m & e & Hx & _); [lia|].
  fold (Number_of_nat (S (List.length offers))) in Hx.
  split.
  - intros Hno. rewrite (no_accepted (o :: offers) Hno).
    change (Number_of_nat (List.length (@nil Offer.t))) with 0%float.
    rewrite (fdiv_zero _ _ _ Hx). reflexivity.
  - intros _ Hall. rewrite (all_accepted (o :: offers) Hall).
    cbn [List.length]. rewrite (fdiv_self _ _ _ Hx). reflexivity.
Qed.

Lemma acceptanceRate_extremes_witness :
  acceptanceRate (DashboardPage (filter (has_status OfferStatus.accepted) seedOffers))
    = 100%float.
Proof.
  refine (proj2 (@acceptanceRate_extremes
                   (filter (has_status OfferStatus.accepted) seedOffers) _) _ _).
  - vm_compute. reflexivity.
  - vm_compute. discriminate.
  - intros o Hin. vm_compute in Hin. destruct Hin as [<- | []]. reflexivity.
Defined.

(* ================================================================== *)
(** * The active conversation after an intent *)
(* ================================================================== *)

Lemma find_first_unique_id (l : list Conversation.t) (c : Conversation.t) :
  NoDup (List.map Conversation.id l) -> In c l ->
  find_first (selects (Some (Conversation.id c))) l = Some c.
Proof.
  induction l as [|x l IH]; cbn [find_first List.map selects];
    intros Hnd Hin; [contradiction|].
  inversion Hnd as [|? ? Hx Hl]; subst.
  destruct Hin as [-> | Hin]; [now rewrite str_eqb_refl|].
  destruct (str_eqb (Conversation.id x) (Conversation.id c)) eqn:E.
  - apply str_eqb_eq in E. exfalso. apply Hx. rewrite E. now apply in_map.
  - now apply IH.
Qed.

(** X17. Opening the chat of a holder shows that holder's conversation: when
    conversation ids are unique and some conversation has the holder name,
    the route becomes [messages] and the active conversation is the first
    conversation with that holder name. *)
Theorem openChatFor_activates (st : AppState) (h : jsstring) (c : Conversation.t) :
  NoDup (List.map Conversation.id (conversations st)) ->
  first_such (fun x => Conversation.holderName x = h) (conversations st) c ->
  current (conversations (openChatFor h st))
          (selectedConversationId (openChatFor h st)) = Some c /\
  route (openChatFor h st) = Route.messages.
Proof.
  intros Hnd Hc.
  assert (Hin : In c (conversations st)).
  { destruct Hc as (pre & post & -> & _). apply in_elt. }
  unfold openChatFor.
  erewrite find_first_first_such.
  2:{ eapply first_such_ext; [|exact Hc].
      intros y. cbn. symmetry. apply str_eqb_eq. }
  cbn. split; [|reflexivity].
  rewrite current_unfold. now rewrite find_first_unique_id.
Qed.

Lemma openChatFor_activates_witness :
  current (conversations (openChatFor (js "Jeddah Municipality") seed_state))
          (selectedConversationId (openChatFor (js "Jeddah Municipality") seed_state))
    = nth_error (conversations seed_state) 1.
Proof.
  refine (proj1 (@openChatFor_activates seed_state (js "Jeddah Municipality")
                   (nth 1 (conversations seed_state) (Conversation.mk [] [] [] [] [] []))
                   _ _)).
  - vm_compute. repeat constructor; simpl; intuition discriminate.
  - exists [nth 0 (conversations seed_state) (Conversation.mk [] [] [] [] [] [])], [].
    split; [reflexivity|]. split; [reflexivity|].
    intros y [<- | []]. vm_compute. discriminate.
Defined.

Lemma find_first_map {A} (p : A -> bool) (f : A -> A) (l : list A) :
  (forall x, p (f x) = p x) ->
  find_first p (List.map f l) = option_map f (find_first p l).
Proof.
  intros H. induction l as [|a l IH]; cbn; [reflexivity|].
  rewrite H. now destruct (p a).
Qed.

(** X18. A sent message is shown at once: when a conversation is active and
    the trimmed draft is not empty, after the send handler the same
    conversation is active, its messages are the former ones followed by the
    new message with the trimmed draft as body, and the draft is empty. *)
Theorem handleSend_shows_message (env : Env) (draft : jsstring) (st : AppState)
  (c : Conversation.t) :
  current (conversations st) (selectedConversationId st) = Some c ->
  trim draft <> [] ->
  current (conversations (fst (handleSend env draft st)))
          (selectedConversationId (fst (handleSend env draft st)))
    = Some (append_message
              (ChatMessage.mk (random_id env) Sender.provider (trim draft) (now env))
              c) /\
  snd (handleSend env draft st) = [].
Proof.
  intros Hc Ht. unfold handleSend. rewrite Hc.
  destruct (trim draft) as [|u text] eqn:Et; [contradiction|].
  cbn [str_falsy fst snd]. split; [|reflexivity].
  cbn [sendMessage set_conversations conversations selectedConversationId].
  rewrite current_unfold in Hc |- *.
  set (f := fun x => if str_eqb (Conversation.id x) (Conversation.id c)
                     then append_message _ x else x).
  assert (Hfc : f c = append_message
                  (ChatMessage.mk (random_id env) Sender.provider (u :: text) (now env)) c).
  { unfold f. now rewrite str_eqb_refl. }
  rewrite find_first_map.
  2:{ intros x. unfold f, selects. destruct (selectedConversationId st); [|reflexivity].
      now destruct (str_eqb (Conversation.id x) (Conversation.id c)). }
  destruct (find_first (selects (selectedConversationId st)) (conversations st))
    as [c0|]; cbn [option_map].
  - injection Hc as ->. now rewrite Hfc.
  - destruct (conversations st) as [|x l]; [discriminate|].
    cbn in Hc |- *. injection Hc as ->. now rewrite Hfc.
Qed.

Lemma handleSend_shows_message_witness :
  snd (handleSend env_half (js " hello ") seed_state) = [].
Proof.
  refine (proj2 (@handleSend_shows_message env_half (js " hello ") seed_state
                   (nth 0 (conversations seed_state) (Conversation.mk [] [] [] [] [] []))
                   _ _)).
  - reflexivity.
  - vm_compute. discriminate.
Defined.

(* ================================================================== *)
(** * The exported files *)
(* ================================================================== *)

Lemma count_unit_app (c : code_unit) (a b : jsstring) :
  count_unit c (a ++ b) = (count_unit c a + count_unit c b)%nat.
Proof. unfold count_unit. now rewrite filter_app, length_app. Qed.

Lemma count_unit_absent (c : code_unit) (s : jsstring) :
  ~ In c s -> count_unit c s = 0%nat.
Proof.
  unfold count_unit. induction s as [|x s IH]; cbn [filter]; intros H;
    [reflexivity|].
  destruct (N.eqb c x) eqn:E.
  - apply N.eqb_eq in E. exfalso. apply H. now left.
  - apply IH. intros Hin. apply H. now right.
Qed.

Lemma count_unit_double_quotes (s : jsstring) :
  count_unit quote (double_quotes s) = (2 * count_unit quote s)%nat.
Proof.
  unfold double_quotes.
  induction s as [|x s IH]; [reflexivity|].
  cbn [flat_map]. rewrite count_unit_app, IH.
  change (x :: s) with ([x] ++ s). rewrite (count_unit_app quote [x] s).
  destruct (x =? quote)%N eqn:E.
  - apply N.eqb_eq in E. subst. cbn. lia.
  - unfold count_unit. cbn [filter]. rewrite N.eqb_sym, E. cbn. lia.
Qed.

Section Files.
Context {rt : Runtime}.

(** X20. An escaped cell can be told apart from the separators around it: it
    holds an even number of double quotes, and when it holds a comma, a line
    feed or a double quote it starts and ends with a double quote. *)
Theorem escape_delimits (v : cell) :
  Nat.even (count_unit quote (escape v)) = true /\
  (In comma (escape v) \/ In newline (escape v) \/ In quote (escape v) ->
   exists body, escape v = [quote] ++ body ++ [quote]).
Proof.
  unfold escape. destruct (needs_quoting (String_of v)) eqn:E.
  - split; [|intros _; eauto].
    rewrite !count_unit_app, count_unit_double_quotes.
    change (count_unit quote [quote]) with 1%nat.
    replace (1 + (2 * count_unit quote (String_of v) + 1))%nat
      with (2 * (1 + count_unit quote (String_of v)))%nat by lia.
    apply Nat.even_spec. now eexists.
  - assert (Hno : ~ (In quote (String_of v) \/ In comma (String_of v) \/
                     In newline (String_of v))).
    { intros H. apply needs_quoting_spec in H. congruence. }
    split.
    + rewrite count_unit_absent; [reflexivity | tauto].
    + tauto.
Qed.

(** X19. The export of the header bar writes nothing when there is no offer;
    otherwise it hands over [offers.csv], whose text is the line
    [id,project,holder,tech,budget,months,received,status] followed by one
    line per offer, in the order of the collection, with the eight escaped
    values of the offer. *)
Theorem exportAll_file (st : AppState) :
  (offers st = [] -> exportAll st = None) /\
  (offers st <> [] ->
   exportAll st =
     Some (mkDownload (js "offers.csv")
             (join [newline]
                (js "id,project,holder,tech,budget,months,received,status"
                 :: List.map offer_line (offers st))))).
Proof.
  unfold exportAll. split.
  - intros ->. reflexivity.
  - intros Hne. destruct (offers st) as [|o l]; [contradiction|].
    unfold exportCSV. cbn [List.map]. do 3 f_equal.
    apply (f_equal2 (@cons jsstring)); [reflexivity|].
    cbn [List.map]. apply (f_equal2 (@cons jsstring)); [reflexivity|].
    rewrite map_map. apply map_ext. intros x. reflexivity.
Qed.

End Files.

Lemma exportAll_file_witness :
  exists text, @exportAll latin_runtime seed_state
               = Some (mkDownload (js "offers.csv") text).
Proof.
  eexists.
  refine (proj2 (@exportAll_file latin_runtime seed_state) _).
  vm_compute. discriminate.
Defined.

(* ================================================================== *)
(** * clsx *)
(* ================================================================== *)

Lemma join_app (sep : jsstring) (l1 l2 : list jsstring) :
  l1 <> [] -> l2 <> [] ->
  join sep (l1 ++ l2) = join sep l1 ++ sep ++ join sep l2.
Proof.
  intros H1 H2. induction l1 as [|x l1 IH]; [contradiction|].
  destruct l1 as [|y l1].
  - cbn [app join]. destruct l2; [contradiction | reflexivity].
  - change (join sep ((x :: y :: l1) ++ l2))
      with (x ++ sep ++ join sep ((y :: l1) ++ l2)).
    rewrite IH by discriminate.
    change (join sep (x :: y :: l1)) with (x ++ sep ++ join sep (y :: l1)).
    now rewrite <- !app_assoc.
Qed.

Lemma join_nonempty (sep : jsstring) (l : list jsstring) :
  (forall s, In s l -> s <> []) -> l <> [] -> join sep l <> [].
Proof.
  intros Hs Hl. destruct l as [|x l]; [contradiction|].
  assert (Hx : x <> []) by (apply Hs; now left).
  destruct x as [|c x]; [contradiction|].
  destruct l; cbn; discriminate.
Qed.

Lemma kept_nonempty (xs : list class_arg) (s : jsstring) :
  In s (List.map class_text (filter Boolean_of xs)) -> s <> [].
Proof.
  intros H. apply in_map_iff in H as (x & <- & Hx).
  apply filter_In in Hx as [_ Hb].
  destruct x as [t| | |]; cbn in Hb; try discriminate.
  destruct t; [discriminate|]. cbn. discriminate.
Qed.

Lemma clsx_empty (xs : list class_arg) :
  clsx xs = [] <-> filter Boolean_of xs = [].
Proof.
  unfold clsx. split.
  - intros H. destruct (filter Boolean_of xs) as [|x l] eqn:E; [reflexivity|].
    exfalso. revert H. apply join_nonempty; [|discriminate].
    rewrite <- E. apply kept_nonempty.
  - intros ->. reflexivity.
Qed.

(** X1. [clsx] skips what is falsy: its result is empty exactly when no
    argument is a non-empty string, and the classes of two argument lists put
    one after the other are the classes of each, with one space between them
    only when both have some. *)
Theorem clsx_skips_falsy (xs ys : list class_arg) :
  (clsx xs = [] <-> forall x, In x xs -> Boolean_of x = false) /\
  clsx (xs ++ ys) =
    (if str_falsy (clsx xs) then clsx ys
     else if str_falsy (clsx ys) then clsx xs
     else clsx xs ++ js " " ++ clsx ys).
Proof.
  split.
  - rewrite clsx_empty. split.
    + intros H x Hx. destruct (Boolean_of x) eqn:E; [|reflexivity].
      assert (Hin : In x (filter Boolean_of xs)) by (apply filter_In; auto).
      rewrite H in Hin. contradiction.
    + intros H. induction xs as [|x xs IH]; [reflexivity|].
      cbn [filter]. rewrite (H x) by now left.
      apply IH. intros y Hy. apply H. now right.
  - destruct (str_falsy (clsx xs)) eqn:Ex.
    + apply str_falsy_nil, clsx_empty in Ex.
      unfold clsx. now rewrite filter_app, Ex.
    + destruct (str_falsy (clsx ys)) eqn:Ey.
      * apply str_falsy_nil, clsx_empty in Ey.
        unfold clsx. now rewrite filter_app, Ey, app_nil_r.
      * unfold clsx at 1. rewrite filter_app, map_app.
        apply join_app.
        -- intros H. apply map_eq_nil in H. apply clsx_empty in H.
           rewrite H in Ex. discriminate.
        -- intros H. apply map_eq_nil in H. apply clsx_empty in H.
           rewrite H in Ey. discriminate.
Qed.

(* ================================================================== *)
(** * Views side by side *)
(* ================================================================== *)

Lemma filter_keeps_all {A} (p : A -> bool) (l : list A) :
  (forall x, p x = true) -> filter p l = l.
Proof.
  intros H. induction l as [|a l IH]; cbn; [reflexivity|].
  now rewrite H, IH.
Qed.

Section Views.
Context {rt : Runtime}.

(** X21. The offers page and the dashboard agree: with a query that is empty
    once trimmed, the status filter lists exactly the offers with that
    status, as many as the dashboard counts, and the filter [all] lists the
    whole collection. *)
Theorem filtered_agrees_with_dashboard (offers : list Offer.t) (query : jsstring) :
  trim query = [] ->
  filtered offers query all = offers /\
  (forall s, filtered offers query (only s) = filter (has_status s) offers) /\
  List.length (filtered offers query (only OfferStatus.accepted))
    = accepted (DashboardPage offers) /\
  List.length (filtered offers query (only OfferStatus.pending))
    = pending (DashboardPage offers) /\
  List.length (filtered offers query (only OfferStatus.declined))
    = declined (DashboardPage offers).
Proof.
  intros Hq.
  assert (H : forall status, filtered offers query status
                             = filter (status_matches status) offers).
  { intros status. unfold filtered. rewrite Hq, toLowerCase_empty. cbn [str_falsy].
    now apply filter_keeps_all. }
  assert (Hs : forall s, filtered offers query (only s) = filter (has_status s) offers).
  { intros s. rewrite H. reflexivity. }
  repeat split.
  - rewrite H. now apply filter_keeps_all.
  - exact Hs.
  - now rewrite Hs.
  - now rewrite Hs.
  - now rewrite Hs.
Qed.

End Views.

Lemma filtered_agrees_with_dashboard_witness :
  @filtered latin_runtime seedOffers (js "   ") all = seedOffers.
Proof.
  refine (proj1 (@filtered_agrees_with_dashboard latin_runtime seedOffers (js "   ") _)).
  reflexivity.
Defined.

(* ================================================================== *)
(** * Blank drafts and clicks on the list *)
(* ================================================================== *)

Lemma trimStart_blank (s : jsstring) :
  trimStart s = [] <-> forall c, In c s -> is_white_space c = true.
Proof.
  induction s as [|x s IH]; cbn [trimStart].
  - split; [intros _ c [] | reflexivity].
  - destruct (is_white_space x) eqn:Ex.
    + rewrite IH. split.
      * intros H c [<- | Hc]; auto.
      * intros H c Hc. apply H. now right.
    + split; [discriminate|]. intros H.
      rewrite (H x) in Ex by now left. discriminate.
Qed.

Lemma trimStart_within (s : jsstring) (c : code_unit) :
  In c (trimStart s) -> In c s.
Proof.
  induction s as [|x s IH]; cbn [trimStart]; [auto|].
  destruct (is_white_space x); [|auto]. intros H. right. now apply IH.
Qed.

Lemma trim_blank (s : jsstring) :
  trim s = [] <-> forall c, In c s -> is_white_space c = true.
Proof.
  unfold trim, trimEnd. split.
  - intros H.
    assert (Hr : trimStart (rev (trimStart s)) = []).
    { apply (f_equal (@rev code_unit)) in H. now rewrite rev_involutive in H. }
    rewrite trimStart_blank in Hr.
    destruct (trimStart s) as [|c0 t0] eqn:Et.
    + now apply trimStart_blank.
    + exfalso. pose proof (trimStart_head s c0 t0 Et) as Hc0.
      rewrite (Hr c0) in Hc0; [discriminate|].
      apply in_rev. rewrite rev_involutive. now left.
  - intros H. apply trimStart_blank in H. now rewrite H.
Qed.

(** X22. A blank draft is never sent: the trimmed draft is empty exactly when
    every code unit of the draft is white space, and then the send handler
    leaves the state and the draft as they were. *)
Theorem handleSend_ignores_blank (env : Env) (draft : jsstring) (st : AppState) :
  (trim draft = [] <-> forall c, In c draft -> is_white_space c = true) /\
  ((forall c, In c draft -> is_white_space c = true) ->
   handleSend env draft st = (st, draft)).
Proof.
  split; [apply trim_blank|].
  intros H. apply trim_blank in H. unfold handleSend. rewrite H.
  now destruct (current _ _).
Qed.

(** X23. A click on a listed conversation shows it: when conversation ids are
    unique, selecting the id of a conversation of the collection makes that
    conversation the active one. *)
Theorem select_activates (st : AppState) (c : Conversation.t) :
  NoDup (List.map Conversation.id (conversations st)) ->
  In c (conversations st) ->
  current (conversations (dispatch (SelectConversation (Conversation.id c)) st))
          (selectedConversationId
             (dispatch (SelectConversation (Conversation.id c)) st))
    = Some c.
Proof.
  intros Hnd Hin. cbn. rewrite current_unfold.
  now rewrite find_first_unique_id.
Qed.

Lemma select_activates_witness :
  current (conversations
             (dispatch (SelectConversation (js "C-102")) seed_state))
          (selectedConversationId
             (dispatch (SelectConversation (js "C-102")) seed_state))
    = nth_error (conversations seed_state) 1.
Proof.
  refine (@select_activates seed_state
            (nth 1 (conversations seed_state) (Conversation.mk [] [] [] [] [] []))
            _ _).
  - vm_compute. repeat constructor; simpl; intuition discriminate.
  - right. left. reflexivity.
Defined.
